(** * Game_Emulator: cover fetching and emulator launching

    A shallow embedding of [images.py] (class [ImageFetcher]) and
    [launcher.py] ([find_emulator], [launch_and_watch]).

    Python strings are sequences of Unicode code points, so [str] is
    [list N].  Everything the code asks of its surroundings (filesystem,
    HTTP, subprocesses, the Unicode database outside Latin-1) is answered by
    a [World]; every such request is also appended to a trace of events, so
    that "no network call", "no process spawned" and "exactly one signal"
    are statements about traces.  Python exceptions are an explicit
    [Raise] outcome.  Paths are joined as on POSIX; a [World] answers the
    same question the same way throughout one call. *)

From Stdlib Require Import NArith ZArith List Bool String Ascii Lia.
From stdpp Require Import base option list gmap.

Set Default Proof Using "Type".

(** ** Python strings *)

Definition str : Type := list N.
Definition bytes : Type := list Byte.byte.

(** An ASCII literal as a Python string. *)
Definition lit (s : string) : str :=
  map N_of_ascii (list_ascii_of_string s).
Arguments lit s%_string : simpl never.

Definition in_range (lo hi c : N) : bool := ((lo <=? c) && (c <=? hi))%N.

Definition str_eqb (a b : str) : bool := bool_decide (a = b).

(** [s.startswith(p)] *)
Fixpoint startswith (p s : str) : bool :=
  match p, s with
  | [], _ => true
  | _ :: _, [] => false
  | a :: p', b :: s' => (a =? b)%N && startswith p' s'
  end.

(** [s.endswith(p)] *)
Definition endswith (p s : str) : bool := startswith (rev p) (rev s).

(** [needle in hay] for two strings: substring search. *)
Fixpoint str_in (needle hay : str) : bool :=
  startswith needle hay ||
  match hay with
  | [] => false
  | _ :: t => str_in needle t
  end.

(** [c in (x, y, ...)] for a tuple of one-character strings. *)
Definition char_in (c : N) (tuple : list str) : bool :=
  existsb (str_eqb [c]) tuple.

(** [str.isspace] for one code point (the complete list of CPython's
    [Py_UNICODE_ISSPACE]). *)
Definition isspace (c : N) : bool :=
  existsb (fun r => in_range (fst r) (snd r) c)
    [(9, 13); (28, 32); (133, 133); (160, 160); (5760, 5760);
     (8192, 8202); (8232, 8233); (8239, 8239); (8287, 8287);
     (12288, 12288)]%N.

Fixpoint lstrip (s : str) : str :=
  match s with
  | c :: t => if isspace c then lstrip t else s
  | [] => []
  end.

(** [s.strip()] *)
Definition strip (s : str) : str := rev (lstrip (rev (lstrip s))).

(** [str.isalnum] on Latin-1 (code points below 256): letters, decimal
    digits, and the characters with a digit or numeric value. *)
Definition latin1_isalnum (c : N) : bool :=
  existsb (fun r => in_range (fst r) (snd r) c)
    [(48, 57); (65, 90); (97, 122); (170, 170); (178, 179); (181, 181);
     (185, 186); (188, 190); (192, 214); (216, 246); (248, 255)]%N.

Definition is_ascii (c : N) : bool := (c <? 128)%N.

Definition ascii_lower (c : N) : N :=
  if in_range 65 90 c then (c + 32)%N else c.

(** [posixpath.join(a, b)] *)
Definition os_path_join (a b : str) : str :=
  if startswith (lit "/") b then b
  else if str_eqb a [] || endswith (lit "/") a then a ++ b
  else a ++ lit "/" ++ b.

(** ** Python values that come out of [response.json()] *)

#[local] Unset Elimination Schemes.
Inductive json : Type :=
| JNull
| JBool (b : bool)
| JNum (z : Z)
| JStr (s : str)
| JList (l : list json)
| JDict (kv : list (str * json)).
#[local] Set Elimination Schemes.

(** [bool(v)] *)
Definition truthy (v : json) : bool :=
  match v with
  | JNull => false
  | JBool b => b
  | JNum z => negb (z =? 0)%Z
  | JStr s => negb (str_eqb s [])
  | JList l => match l with [] => false | _ => true end
  | JDict kv => match kv with [] => false | _ => true end
  end.

Fixpoint assoc (k : str) (kv : list (str * json)) : option json :=
  match kv with
  | [] => None
  | (k', v) :: rest => if str_eqb k k' then Some v else assoc k rest
  end.

(** ** Exceptions *)

Inductive exn_class : Type :=
| RequestException      (* requests.exceptions.RequestException and below *)
| FileNotFoundError
| NotADirectoryError
| PermissionError
| OSError               (* any other OSError *)
| AttributeError
| KeyError
| IndexError
| TypeError
| ValueError.

Record exn : Type := Exn { exn_type : exn_class; exn_str : str }.

(** [except requests.exceptions.RequestException] *)
Definition is_RequestException (e : exn) : bool :=
  match exn_type e with RequestException => true | _ => false end.

(** [except OSError]; [RequestException] derives from [IOError]. *)
Definition is_OSError (e : exn) : bool :=
  match exn_type e with
  | RequestException | FileNotFoundError | NotADirectoryError
  | PermissionError | OSError => true
  | _ => false
  end.

(** [except FileNotFoundError] *)
Definition is_FileNotFoundError (e : exn) : bool :=
  match exn_type e with FileNotFoundError => true | _ => false end.

Inductive outcome (A : Type) : Type :=
| Ret (a : A)
| Raise (e : exn).
Arguments Ret {A} a.
Arguments Raise {A} e.

(** ** Configuration ([config.py]: the dictionary read from config.json) *)

Record Config : Type := {
  cfg_covers_dir : option str;
  cfg_rawg_api_key : option str;
  cfg_emulators : option (gmap str str)
}.

(** The attributes of an [ImageFetcher] object. *)
Record ImageFetcher : Type := {
  cfg : Config;
  covers_dir : str;
  api_key : str
}.

(** ** Events *)

Definition proc : Type := N.       (* a [subprocess.Popen] object, by pid *)
Definition callback : Type := N.   (* a Python callable, by identity *)
Definition widget : Type := N.

Inductive thread : Type :=
| WorkerThread (self : ImageFetcher) (key name : str) (url : option str)
    (local_path : str)
| WatcherThread (p : proc) (on_exit : option callback).

Inductive event : Type :=
| EvPathExists (p : str)
| EvIsDir (p : str)
| EvIsFile (p : str)
| EvListDir (p : str)
| EvMakedirs (p : str)
| EvHttpGet (url : json) (timeout : N) (stream : bool)
| EvOpenWb (p : str)
| EvWrite (p : str) (chunk : bytes)
| EvClose (p : str)
| EvReplace (src dst : str)
| EvPrint (text : str) (args : list json)
| EvImageReady (key path : str)
| EvThreadStart (t : thread)
| EvCritical (parent : option widget) (title text : str)
| EvPopen (argv : list str)
| EvWait (p : proc)
| EvCall (f : callback) (code : Z).

Definition trace : Type := list event.

(** ** The surroundings *)

Record Response : Type := {
  status_code : Z;
  content_chunks : list bytes;     (* what [iter_content] yields ... *)
  stream_error : option exn;       (* ... and how it ends *)
  json_result : outcome json       (* [response.json()] *)
}.

Record World : Type := {
  w_exists : str -> bool;
  w_isdir : str -> bool;
  w_isfile : str -> bool;
  w_listdir : str -> outcome (list str);
  w_makedirs : str -> outcome unit;
  w_get : json -> N -> bool -> outcome Response;
  w_open_wb : str -> outcome unit;
  w_write : str -> bytes -> outcome unit;
  w_close : str -> outcome unit;
  w_replace : str -> str -> outcome unit;
  w_popen : list str -> outcome proc;
  w_wait : proc -> Z;
  w_quote_plus : str -> outcome str;       (* urllib.parse.quote_plus *)
  unicode_isalnum : N -> bool;             (* str.isalnum from U+0100 on *)
  unicode_lower : str -> str               (* str.lower off ASCII *)
}.

(** ** Effects: a result or an exception, and the events so far *)

Definition M (A : Type) : Type := outcome A * trace.

Definition ret {A} (a : A) : M A := (Ret a, []).

Definition bind {A B} (m : M A) (f : A -> M B) : M B :=
  match m with
  | (Ret a, t) => let '(r, t') := f a in (r, t ++ t')
  | (Raise e, t) => (Raise e, t)
  end.

Notation "'let!' x ':=' m 'in' k" := (bind m (fun x => k))
  (at level 10, x name, m at level 200, k at level 200).
Notation "m ';;' k" := (bind m (fun _ => k))
  (at level 100, k at level 200, only parsing, right associativity).

Definition raise {A} (e : exn) : M A := (Raise e, []).
Definition call {A} (ev : event) (r : outcome A) : M A := (r, [ev]).
Definition log (ev : event) : M unit := (Ret tt, [ev]).

(** [try: body  except <catches> as e: handler e] *)
Definition try_except {A} (body : M A) (catches : exn -> bool)
    (handler : exn -> M A) : M A :=
  match body with
  | (Raise e, t) =>
      if catches e then let '(r, t') := handler e in (r, t ++ t')
      else (Raise e, t)
  | ok => ok
  end.

Definition result {A} (m : M A) : outcome A := fst m.
Definition events {A} (m : M A) : trace := snd m.

Definition pure {A} (r : outcome A) : M A := (r, []).

(** ** images.py *)

Section Images.
Variable w : World.

(** [c.isalnum()] *)
Definition isalnum (c : N) : bool :=
  if (c <? 256)%N then latin1_isalnum c else unicode_isalnum w c.

(** [v.get(k)] *)
Definition py_get (v : json) (k : str) : M json :=
  match v with
  | JDict kv => ret (default JNull (assoc k kv))
  | _ => raise (Exn AttributeError (lit "object has no attribute 'get'"))
  end.

(** [v[0]] *)
Definition py_index0 (v : json) : M json :=
  match v with
  | JList (x :: _) => ret x
  | JStr (c :: _) => ret (JStr [c])
  | JList [] | JStr [] => raise (Exn IndexError (lit "index out of range"))
  | JDict _ => raise (Exn KeyError (lit "0"))
  | _ => raise (Exn TypeError (lit "object is not subscriptable"))
  end.

(** [v[k]] for a string key *)
Definition py_getitem (v : json) (k : str) : M json :=
  match v with
  | JDict kv =>
      match assoc k kv with
      | Some x => ret x
      | None => raise (Exn KeyError k)
      end
  | _ => raise (Exn TypeError (lit "indices must be integers"))
  end.

Definition ImageFetcher_init (c : Config) : M ImageFetcher :=
  let dir := default (lit "resources/covers") (cfg_covers_dir c) in
  call (EvMakedirs dir) (w_makedirs w dir) ;;
  ret {| cfg := c; covers_dir := dir;
          api_key := strip (default [] (cfg_rawg_api_key c)) |}.

Definition _local_path_for (self : ImageFetcher) (key : str) : str :=
  let safe_key :=
    concat (map (fun c =>
      if isalnum c || char_in c [lit "_"; lit "-"; lit "."]
      then [c] else lit "_") key) in
  os_path_join (covers_dir self) (safe_key ++ lit ".png").

(** [response.raise_for_status()] *)
Definition raise_for_status (r : Response) : M unit :=
  if ((400 <=? status_code r) && (status_code r <? 600))%Z
  then raise (Exn RequestException (lit "HTTPError"))
  else ret tt.

(** [for chunk in response.iter_content(8192): f.write(chunk)] *)
Fixpoint write_chunks (p : str) (chunks : list bytes) (last : option exn)
    : M unit :=
  match chunks with
  | [] => match last with Some e => raise e | None => ret tt end
  | c :: rest =>
      call (EvWrite p c) (w_write w p c) ;; write_chunks p rest last
  end.

(** [with open(p, "wb") as f: body]: the file is closed on the way out,
    also when [body] raised. *)
Definition with_open_wb {A} (p : str) (body : M A) : M A :=
  call (EvOpenWb p) (w_open_wb w p) ;;
  match body, w_close w p with
  | (r, t), Ret _ => (r, t ++ [EvClose p])
  | (_, t), Raise e => (Raise e, t ++ [EvClose p])
  end.

Definition _try_download (url : json) (local_path : str) : M bool :=
  try_except
    (let! response := call (EvHttpGet url 10 true) (w_get w url 10 true) in
     raise_for_status response ;;
     let tmp_path := local_path ++ lit ".tmp" in
     with_open_wb tmp_path
       (write_chunks tmp_path (content_chunks response)
          (stream_error response)) ;;
     call (EvReplace tmp_path local_path)
       (w_replace w tmp_path local_path) ;;
     ret true)
    is_RequestException
    (fun e =>
       log (EvPrint (lit "Image download failed from {url}: {e}")
              [url; JStr (exn_str e)]) ;;
       ret false).

(** [Some r]: the [return] inside the [try] was reached with [r];
    [None]: control fell through to the final [return False]. *)
Definition _try_fetch_from_rawg (self : ImageFetcher)
    (name local_path : str) : M bool :=
  let! returned :=
    try_except
      (let! query := pure (w_quote_plus w name) in
       let rawg_url :=
         lit "https://api.rawg.io/api/games?search=" ++ query ++
         lit "&page_size=1&key=" ++ api_key self in
       let! response := call (EvHttpGet (JStr rawg_url) 8 false)
                          (w_get w (JStr rawg_url) 8 false) in
       raise_for_status response ;;
       let! body := pure (json_result response) in
       let! data := py_get body (lit "results") in
       let! cond := (if truthy data
                     then let! first := py_index0 data in
                          py_get first (lit "background_image")
                     else ret data) in
       if truthy cond then
         let! first := py_index0 data in
         let! image_url := py_getitem first (lit "background_image") in
         let! r := _try_download image_url local_path in
         ret (Some r)
       else ret None)
      is_RequestException
      (fun e =>
         log (EvPrint (lit "RAWG fetch error for {name}: {e}")
                [JStr name; JStr (exn_str e)]) ;;
         ret None) in
  ret (default false returned).

Definition _worker (self : ImageFetcher) (key name : str)
    (url : option str) (local_path : str) : M unit :=
  let! downloaded :=
    match url with
    | Some u =>
        if truthy (JStr u) then _try_download (JStr u) local_path
        else ret false
    | None => ret false
    end in
  if downloaded then log (EvImageReady key local_path)
  else
    let! fetched :=
      (if truthy (JStr (api_key self))
       then _try_fetch_from_rawg self name local_path
       else ret false) in
    if fetched then log (EvImageReady key local_path)
    else log (EvImageReady key []).

Definition fetch (self : ImageFetcher) (game_key game_name : str)
    (image_url : option str) : M unit :=
  let local_path := _local_path_for self game_key in
  let! cached :=
    call (EvPathExists local_path) (Ret (w_exists w local_path)) in
  if cached then log (EvImageReady game_key local_path)
  else log (EvThreadStart
              (WorkerThread self game_key game_name image_url local_path)).
End Images.

(** ** launcher.py *)

Section Launcher.
Variable w : World.

(** [s.lower()] *)
Definition lower (s : str) : str :=
  if forallb is_ascii s then map ascii_lower s else unicode_lower w s.

Definition em_dir : str := lit "emulators".

(** The [for file in os.listdir(em_dir)] loop of [find_emulator]. *)
Fixpoint scan (console : str) (files : list str) : M (option str) :=
  match files with
  | [] => ret None
  | file :: rest =>
      if str_in (lower console) (lower file) then
        let candidate := os_path_join em_dir file in
        let! is_file :=
          call (EvIsFile candidate) (Ret (w_isfile w candidate)) in
        if is_file then ret (Some candidate) else scan console rest
      else scan console rest
  end.

Definition find_emulator (c : Config) (console : str) : M (option str) :=
  let em := default ∅ (cfg_emulators c) !! console in
  let! direct :=
    match em with
    | Some p =>
        if truthy (JStr p) then call (EvPathExists p) (Ret (w_exists w p))
        else ret false
    | None => ret false
    end in
  if direct then ret em
  else
    let! is_dir := call (EvIsDir em_dir) (Ret (w_isdir w em_dir)) in
    let! found :=
      (if is_dir
       then let! names := call (EvListDir em_dir) (w_listdir w em_dir) in
            scan console names
       else ret None) in
    match found with
    | Some candidate => ret (Some candidate)
    | None =>
        try_except
          (let! names := call (EvListDir em_dir) (w_listdir w em_dir) in
           let files := map (os_path_join em_dir) names in
           let exes :=
             List.filter (fun f => endswith (lit ".exe") (lower f)) files in
           if (length exes =? 1)%nat
           then match exes !! 0%nat with
                | Some exe => ret (Some exe)
                | None => raise (Exn IndexError (lit "index out of range"))
                end
           else ret None)
          is_FileNotFoundError
          (fun _ => ret None)
    end.

Definition watcher (on_exit : option callback) (p : proc) : M unit :=
  let! code := call (EvWait p) (Ret (w_wait w p)) in
  match on_exit with
  | Some f => log (EvCall f code)
  | None => ret tt
  end.

Definition launch_and_watch (emulator rom_path : str)
    (on_exit : option callback) (parent : option widget)
    : M (option proc) :=
  let! emulator_exists :=
    call (EvPathExists emulator) (Ret (w_exists w emulator)) in
  if negb emulator_exists then
    log (EvCritical parent (lit "Emulator Missing")
           (lit "Emulator not found:" ++ [10%N] ++ emulator)) ;;
    log (EvPrint (lit "Emulator missing: {emulator}") [JStr emulator]) ;;
    ret None
  else
    let! rom_exists :=
      call (EvPathExists rom_path) (Ret (w_exists w rom_path)) in
    if negb rom_exists then
      log (EvCritical parent (lit "ROM Missing")
             (lit "ROM file not found:" ++ [10%N] ++ rom_path)) ;;
      log (EvPrint (lit "ROM missing: {rom_path}") [JStr rom_path]) ;;
      ret None
    else
      let! spawned :=
        try_except
          (log (EvPrint (lit "Launching emulator: {emulator} ROM: {rom_path}")
                  [JStr emulator; JStr rom_path]) ;;
           let! p := call (EvPopen [emulator; rom_path])
                       (w_popen w [emulator; rom_path]) in
           ret (Some p))
          is_OSError
          (fun e =>
             log (EvCritical parent (lit "Launch Failed") (exn_str e)) ;;
             log (EvPrint (lit "Launch error: {e}") [JStr (exn_str e)]) ;;
             ret None) in
      match spawned with
      | None => ret None
      | Some p =>
          log (EvThreadStart (WatcherThread p on_exit)) ;;
          ret (Some p)
      end.
End Launcher.

(** ** Threads run to completion *)

Definition run_thread (w : World) (t : thread) : M unit :=
  match t with
  | WorkerThread self key name url local_path =>
      _worker w self key name url local_path
  | WatcherThread p on_exit => watcher w on_exit p
  end.

Definition started (tr : trace) : list thread :=
  flat_map (fun ev =>
    match ev with EvThreadStart t => [t] | _ => [] end) tr.

(** All events of a call: those of the calling thread, then those of every
    thread it started. *)
Definition to_completion {A} (w : World) (m : M A) : trace :=
  events m ++ flat_map (fun t => events (run_thread w t)) (started (events m)).

(** The paths delivered through [image_ready] for [key]. *)
Definition deliveries (key : str) (tr : trace) : list str :=
  flat_map (fun ev =>
    match ev with
    | EvImageReady k p => if str_eqb k key then [p] else []
    | _ => []
    end) tr.

Definition http_gets (tr : trace) : list json :=
  flat_map (fun ev =>
    match ev with EvHttpGet url _ _ => [url] | _ => [] end) tr.

Definition spawned (tr : trace) : list (list str) :=
  flat_map (fun ev =>
    match ev with EvPopen argv => [argv] | _ => [] end) tr.

Definition waits (tr : trace) : list proc :=
  flat_map (fun ev => match ev with EvWait p => [p] | _ => [] end) tr.

Definition exit_calls (f : callback) (tr : trace) : list Z :=
  flat_map (fun ev =>
    match ev with
    | EvCall g code => if (g =? f)%N then [code] else []
    | _ => []
    end) tr.

Definition dialogs (tr : trace) : list (str * str) :=
  flat_map (fun ev =>
    match ev with EvCritical _ title text => [(title, text)] | _ => [] end)
    tr.


(** ** The character class of the specification

    [spec_keeps] and [spec_path_for] follow the specification's wording
    ("every character not in [A-Za-z0-9_.-] is replaced by '_'"); they are
    compared with [_local_path_for] below. *)

Definition spec_keeps (c : N) : bool :=
  in_range 65 90 c || in_range 97 122 c || in_range 48 57 c ||
  (c =? 95)%N || (c =? 46)%N || (c =? 45)%N.

Definition spec_path_for (dir key : str) : str :=
  os_path_join dir
    (map (fun c => if spec_keeps c then c else 95%N) key ++ lit ".png").

(** What the generator expression of [_local_path_for] keeps. *)
Definition keeps (w : World) (c : N) : bool :=
  isalnum w c || ((c =? 95)%N || (c =? 45)%N || (c =? 46)%N).

(** The [exes] of [find_emulator]'s last step, from the directory listing. *)
Definition executables (w : World) (names : list str) : list str :=
  List.filter (fun f => endswith (lit ".exe") (lower w f))
    (map (os_path_join em_dir) names).

(** [cfg.get("emulators", {}).get(console)] *)
Definition configured (c : Config) (console : str) : option str :=
  default ∅ (cfg_emulators c) !! console.

(** The configuration with its "emulators" entry removed. *)
Definition without_emulators (c : Config) : Config :=
  {| cfg_covers_dir := cfg_covers_dir c;
     cfg_rawg_api_key := cfg_rawg_api_key c;
     cfg_emulators := None |}.

(** Events of the file writing inside [_try_download], and its prints. *)
Definition is_file_io (ev : event) : bool :=
  match ev with
  | EvOpenWb _ | EvWrite _ _ | EvClose _ | EvReplace _ _ | EvPrint _ _ => true
  | _ => false
  end.

(** Events that neither deliver a signal nor start a thread. *)
Definition is_silent (ev : event) : bool :=
  match ev with
  | EvImageReady _ _ | EvThreadStart _ => false
  | _ => true
  end.

(** ** Sample surroundings, for evaluating the code on concrete inputs *)

Definition sample_response : Response :=
  {| status_code := 200;
     content_chunks := [[Byte.x89; Byte.x50; Byte.x4e; Byte.x47]];
     stream_error := None;
     json_result := Ret (JDict [(lit "results", JList [])]) |}.

Definition sample_world (present : str -> bool) (is_dir : str -> bool)
    (listing : outcome (list str)) (http : outcome Response)
    (opening : outcome unit) (spawning : outcome proc) : World :=
  {| w_exists := present;
     w_isdir := is_dir;
     w_isfile := present;
     w_listdir := fun _ => listing;
     w_makedirs := fun _ => Ret tt;
     w_get := fun _ _ _ => http;
     w_open_wb := fun _ => opening;
     w_write := fun _ _ => Ret tt;
     w_close := fun _ => Ret tt;
     w_replace := fun _ _ => Ret tt;
     w_popen := fun _ => spawning;
     w_wait := fun _ => 3%Z;
     w_quote_plus := fun s => Ret s;
     unicode_isalnum := fun _ => false;
     unicode_lower := fun s => s |}.

Definition no_such_file : exn :=
  Exn FileNotFoundError (lit "No such file or directory").

Definition connection_error : exn :=
  Exn RequestException (lit "ConnectionError").

Definition permission_denied : exn :=
  Exn PermissionError (lit "Permission denied").

(** The covers directory cannot be written to; the network works. *)
Definition readonly_cache_world : World :=
  sample_world (fun _ => false) (fun _ => false) (Raise no_such_file)
    (Ret sample_response) (Raise permission_denied) (Raise no_such_file).

(** Everything works and no cover is cached yet. *)
Definition online_world : World :=
  sample_world (fun _ => false) (fun _ => false) (Raise no_such_file)
    (Ret sample_response) (Ret tt) (Raise no_such_file).

(** No network, no cached cover. *)
Definition offline_world : World :=
  sample_world (fun _ => false) (fun _ => false) (Raise no_such_file)
    (Raise connection_error) (Ret tt) (Raise no_such_file).

(** Every path exists. *)
Definition full_world : World :=
  sample_world (fun _ => true) (fun _ => true) (Ret [])
    (Raise connection_error) (Ret tt) (Ret 4242%N).

(** The metadata API answers with a JSON list instead of an object. *)
Definition list_response : Response :=
  {| status_code := 200;
     content_chunks := [];
     stream_error := None;
     json_result := Ret (JList []) |}.

Definition unexpected_json_world : World :=
  sample_world (fun _ => false) (fun _ => false) (Raise no_such_file)
    (Ret list_response) (Ret tt) (Raise no_such_file).

Definition on_disk (p : str) : bool :=
  existsb (str_eqb p)
    [lit "emulators/readme.txt"; lit "emulators/Nestopia.exe";
     lit "emu/nestopia"; lit "roms/NES/zelda.nes"].

(** An emulators directory holding a text file and one executable. *)
Definition emulators_world : World :=
  sample_world on_disk (str_eqb (lit "emulators"))
    (Ret [lit "readme.txt"; lit "Nestopia.exe"])
    (Raise connection_error) (Ret tt) (Ret 4242%N).

Definition exec_format_error : exn := Exn OSError (lit "Exec format error").

(** The same, with an emulator file the system refuses to run. *)
Definition broken_exe_world : World :=
  sample_world on_disk (str_eqb (lit "emulators"))
    (Ret [lit "readme.txt"; lit "Nestopia.exe"])
    (Raise connection_error) (Ret tt) (Raise exec_format_error).

Definition nes_config : Config :=
  {| cfg_covers_dir := None;
     cfg_rawg_api_key := None;
     cfg_emulators := Some (<[lit "NES" := lit "emu/nestopia"]> ∅) |}.

Definition default_config : Config :=
  {| cfg_covers_dir := Some (lit "resources/covers");
     cfg_rawg_api_key := Some [];
     cfg_emulators :=
       Some (<[lit "NES" := lit "emulators/nestopia.exe"]>
               (<[lit "SNES" := lit "emulators/snes9x.exe"]>
                  (<[lit "GBA" := lit "emulators/visualboyadvance.exe"]> ∅)))
  |}.

Definition sample_fetcher : ImageFetcher :=
  {| cfg := default_config;
     covers_dir := lit "resources/covers";
     api_key := [] |}.

Definition keyed_fetcher : ImageFetcher :=
  {| cfg := default_config;
     covers_dir := lit "resources/covers";
     api_key := lit "k" |}.

(** ** Further vocabulary for the facts below *)

(** The URL that [_try_fetch_from_rawg] requests for an escaped name. *)
Definition rawg_search_url (query key : str) : str :=
  lit "https://api.rawg.io/api/games?search=" ++ query ++
  lit "&page_size=1&key=" ++ key.

(** The key as it appears in the cache file name. *)
Definition safe_key (w : World) (key : str) : str :=
  map (fun c => if keeps w c then c else 95%N) key.

(** An event of a download that stays within the temporary file [tmp] and
    the destination [dest]: reads from the network, prints, writes to
    [tmp], and the renaming of [tmp] onto [dest]. *)
Definition confined (tmp dest : str) (ev : event) : bool :=
  match ev with
  | EvHttpGet _ _ _ | EvPrint _ _ => true
  | EvOpenWb q | EvWrite q _ | EvClose q => str_eqb q tmp
  | EvReplace a b => str_eqb a tmp && str_eqb b dest
  | _ => false
  end.

(** The status codes for which [raise_for_status] raises. *)
Definition is_error_status (r : Response) : bool :=
  ((400 <=? status_code r) && (status_code r <? 600))%Z.

(** The metadata API names an image for the game. *)
Definition rawg_hit_response : Response :=
  {| status_code := 200;
     content_chunks := [[Byte.x89; Byte.x50; Byte.x4e; Byte.x47]];
     stream_error := None;
     json_result :=
       Ret (JDict [(lit "count", JNum 1);
                   (lit "results",
                    JList [JDict [(lit "name", JStr (lit "Zelda"));
                                  (lit "background_image",
                                   JStr (lit "http://media.example/z.jpg"))]])])
  |}.

Definition rawg_hit_world : World :=
  sample_world (fun _ => false) (fun _ => false) (Raise no_such_file)
    (Ret rawg_hit_response) (Ret tt) (Raise no_such_file).

(** The separator that [os.path.join] puts after a directory name. *)
Definition join_separator (dir : str) : str :=
  if str_eqb dir [] || endswith (lit "/") dir then [] else lit "/".

(** ** The application around the core: events and effects

    [ui_bigpicture.py], [config.py] and [games.py] do things the core does
    not (warnings, text files, the card grid); their events wrap the
    core's. *)

Inductive app_event : Type :=
| Core (ev : event)
| QWarning (parent : widget) (title text : str)
| QShrink (card : nat)
| QExpand (card : nat)
| QEnsureVisible (card : nat)
| QAddWidget (card : nat) (row col : Z)
| OpenText (path mode : str)
| CloseText (path : str)
| JsonLoad (path : str)
| JsonDump (path : str) (value : json)
| OsAbspath (path : str)
| FdIsDir (fd : Z)
| FdListDir (fd : Z).

Definition E (A : Type) : Type := outcome A * list app_event.

Definition retE {A} (a : A) : E A := (Ret a, []).

Definition bindE {A B} (m : E A) (f : A -> E B) : E B :=
  match m with
  | (Ret a, t) => let '(r, t') := f a in (r, t ++ t')
  | (Raise e, t) => (Raise e, t)
  end.

Notation "'let*' x ':=' m 'in' k" := (bindE m (fun x => k))
  (at level 10, x name, m at level 200, k at level 200).

Definition raiseE {A} (e : exn) : E A := (Raise e, []).
Definition callE {A} (ev : app_event) (r : outcome A) : E A := (r, [ev]).
Definition logE (ev : app_event) : E unit := (Ret tt, [ev]).

(** A call into images.py or launcher.py. *)
Definition core {A} (m : M A) : E A := (result m, map Core (events m)).

(** [try: body  except <catches> as e: handler e] *)
Definition try_exceptE {A} (body : E A) (catches : exn -> bool)
    (handler : exn -> E A) : E A :=
  match body with
  | (Raise e, t) =>
      if catches e then let '(r, t') := handler e in (r, t ++ t')
      else (Raise e, t)
  | ok => ok
  end.

Definition resultE {A} (m : E A) : outcome A := fst m.
Definition eventsE {A} (m : E A) : list app_event := snd m.

(** The core events among the events of the application. *)
Definition core_events (t : list app_event) : trace :=
  flat_map (fun ev => match ev with Core ev' => [ev'] | _ => [] end) t.

Definition warnings (t : list app_event) : list (str * str) :=
  flat_map (fun ev =>
    match ev with QWarning _ title text => [(title, text)] | _ => [] end) t.

(** ** ui_bigpicture.py: the data of the window

    A game is a dictionary with string values; a missing entry is
    [None]. *)

Record Game : Type := {
  g_key : option str;
  g_name : option str;
  g_console : option str;
  g_rom_path : option str;
  g_image_url : option str;
  g_file : option str
}.

(** A [PosterCard]: its game and the cover it shows ([None]: the
    placeholder). *)
Record Card : Type := {
  card_game : Game;
  card_cover : option str
}.

Record Window : Type := {
  win_id : widget;
  win_cfg : Config;
  win_fetcher : ImageFetcher;
  win_games : list Game;
  win_cards : list Card;
  win_grid : list (nat * Z * Z);      (* the cards in the grid: card, row, col *)
  win_selected : Z
}.

Definition with_cards (win : Window) (cards : list Card) : Window :=
  {| win_id := win_id win; win_cfg := win_cfg win;
     win_fetcher := win_fetcher win; win_games := win_games win;
     win_cards := cards; win_grid := win_grid win;
     win_selected := win_selected win |}.

Definition with_grid (win : Window) (grid : list (nat * Z * Z)) : Window :=
  {| win_id := win_id win; win_cfg := win_cfg win;
     win_fetcher := win_fetcher win; win_games := win_games win;
     win_cards := win_cards win; win_grid := grid;
     win_selected := win_selected win |}.

Definition with_selected (win : Window) (selected : Z) : Window :=
  {| win_id := win_id win; win_cfg := win_cfg win;
     win_fetcher := win_fetcher win; win_games := win_games win;
     win_cards := win_cards win; win_grid := win_grid win;
     win_selected := selected |}.

(** Methods of the window: they read and change its attributes. *)
Definition UI (A : Type) : Type := Window -> E (A * Window).

Definition retU {A} (a : A) : UI A := fun win => retE (a, win).

Definition bindU {A B} (m : UI A) (f : A -> UI B) : UI B :=
  fun win => let* r := m win in f (fst r) (snd r).

Notation "'let+' x ':=' m 'in' k" := (bindU m (fun x => k))
  (at level 10, x name, m at level 200, k at level 200).

Definition liftU {A} (m : E A) : UI A :=
  fun win => let* a := m in retE (a, win).

Definition raiseU {A} (e : exn) : UI A := liftU (raiseE e).

(** [l[i]] for a Python list: the position it denotes, counting from the
    end when [i] is negative; [None] stands for [IndexError]. *)
Definition py_index {A} (l : list A) (i : Z) : option nat :=
  let n := Z.of_nat (length l) in
  if ((0 <=? i) && (i <? n))%Z then Some (Z.to_nat i)
  else if ((- n <=? i) && (i <? 0))%Z then Some (Z.to_nat (n + i))
  else None.

(** [bool(v)] for an optional string. *)
Definition truthy_opt (v : option str) : bool :=
  match v with
  | Some s => truthy (JStr s)
  | None => false
  end.

Definition opt_json (v : option str) : json :=
  match v with Some s => JStr s | None => JNull end.

(** A game dictionary as a value, for printing. *)
Definition game_json (g : Game) : json :=
  JDict (flat_map (fun kv =>
           match snd kv with Some s => [(fst kv, JStr s)] | None => [] end)
         [(lit "key", g_key g); (lit "name", g_name g);
          (lit "console", g_console g); (lit "rom_path", g_rom_path g);
          (lit "image_url", g_image_url g); (lit "file", g_file g)]).

Inductive Key : Type :=
| Key_Right | Key_Left | Key_Down | Key_Up | Key_Return | Key_Enter
| Key_Other.

(** The [lambda rc: print(...)] that [_play] passes as [on_exit]. *)
Definition exit_printer : callback := 0%N.

Section BigPicture.
Variable w : World.
(** [QPixmap(path).isNull()] *)
Variable pixmap_is_null : str -> bool.

(** [PosterCard.set_cover], for the card at position [i]. *)
Definition set_cover (i : nat) (path : str) : UI unit :=
  let+ present :=
    liftU (core (call (EvPathExists path) (Ret (w_exists w path)))) in
  if present then
    if negb (pixmap_is_null path) then
      fun win =>
        retE (tt, with_cards win
                    (alter (fun c => {| card_game := card_game c;
                                        card_cover := Some path |})
                       i (win_cards win)))
    else retU tt
  else retU tt.

(** The loop of [on_image_ready] over the cards from position [i] on. *)
Fixpoint on_image_ready_from (i : nat) (cards : list Card) (k path : str)
    : UI unit :=
  match cards with
  | [] => retU tt
  | card :: rest =>
      match g_key (card_game card) with
      | None => raiseU (Exn KeyError (lit "key"))
      | Some card_key =>
          if str_eqb card_key k then set_cover i path
          else on_image_ready_from (S i) rest k path
      end
  end.

Definition on_image_ready (k path : str) : UI unit :=
  fun win => on_image_ready_from 0 (win_cards win) k path win.

(** [image_ready] is connected to [on_image_ready]: a signal emitted on the
    window's own thread runs the slot at once. *)
Fixpoint deliver_signals (t : trace) : UI unit :=
  match t with
  | [] => retU tt
  | EvImageReady k path :: rest =>
      let+ _ := on_image_ready k path in deliver_signals rest
  | _ :: rest => deliver_signals rest
  end.

Definition _focus (idx : Z) : UI unit :=
  fun win =>
    match win_cards win with
    | [] => retE (tt, win)
    | _ :: _ =>
        let n := Z.of_nat (length (win_cards win)) in
        let* _ :=
          (if ((0 <=? win_selected win) && (win_selected win <? n))%Z
           then logE (QShrink (Z.to_nat (win_selected win)))
           else retE tt) in
        let win' := with_selected win idx in
        match py_index (win_cards win') (win_selected win') with
        | None => raiseE (Exn IndexError (lit "list index out of range"))
        | Some i =>
            let* _ := logE (QExpand i) in
            let* _ := logE (QEnsureVisible i) in
            retE (tt, win')
        end
    end.

Definition _play (game : Game) : UI unit :=
  fun win =>
    let console := g_console game in
    let rom_path := g_rom_path game in
    match console, rom_path with
    | Some c, Some r =>
        if negb (truthy (JStr c)) || negb (truthy (JStr r)) then
          let* _ := core (log (EvCritical (Some (win_id win))
            (lit "Invalid Game")
            (lit "Game is missing required information (console or path)."))) in
          let* _ := core (log (EvPrint (lit "Invalid game:")
                                 [game_json game])) in
          retE (tt, win)
        else
          let* em := core (find_emulator w (win_cfg win) c) in
          if negb (truthy_opt em) then
            let* _ := logE (QWarning (win_id win) (lit "No Emulator")
              (lit "No emulator configured for " ++ c ++ lit ".")) in
            let* _ := core (log (EvPrint (lit "Emulator not found for:")
                                   [JStr c])) in
            retE (tt, win)
          else
            let* rom_exists :=
              core (call (EvPathExists r) (Ret (w_exists w r))) in
            if negb rom_exists then
              let* _ := logE (QWarning (win_id win) (lit "ROM Not Found")
                (lit "ROM file not found:" ++ [10%N] ++ r)) in
              let* _ := core (log (EvPrint (lit "ROM not found:")
                                     [JStr r])) in
              retE (tt, win)
            else
              match g_name game with
              | None => raiseE (Exn KeyError (lit "name"))
              | Some name =>
                  let* _ := core (log (EvPrint
                    (lit "Launching {game['name']} ({console}) with {em}")
                    [JStr name; JStr c; opt_json em])) in
                  let* _ := core (launch_and_watch w (default [] em) r
                                    (Some exit_printer)
                                    (Some (win_id win))) in
                  retE (tt, win)
              end
    | _, _ =>
        let* _ := core (log (EvCritical (Some (win_id win))
          (lit "Invalid Game")
          (lit "Game is missing required information (console or path)."))) in
        let* _ := core (log (EvPrint (lit "Invalid game:")
                               [game_json game])) in
        retE (tt, win)
    end.

Definition keyPressEvent (k : Key) : UI unit :=
  fun win =>
    match win_cards win with
    | [] => retE (tt, win)
    | _ :: _ =>
        let cols := 4%Z in
        let idx := win_selected win in
        let n := Z.of_nat (length (win_cards win)) in
        match k with
        | Key_Right => _focus ((idx + 1) mod n)%Z win
        | Key_Left => _focus ((idx - 1) mod n)%Z win
        | Key_Down => _focus ((idx + cols) mod n)%Z win
        | Key_Up => _focus ((idx - cols) mod n)%Z win
        | Key_Return | Key_Enter =>
            match py_index (win_cards win) (win_selected win) with
            | None => raiseE (Exn IndexError (lit "list index out of range"))
            | Some i =>
                match win_cards win !! i with
                | Some card => _play (card_game card) win
                | None =>
                    raiseE (Exn IndexError (lit "list index out of range"))
                end
            end
        | Key_Other => _focus idx win
        end
    end.

Definition _on_card_clicked (idx : Z) : UI unit :=
  let+ _ := _focus idx in
  fun win =>
    match py_index (win_cards win) idx with
    | None => raiseE (Exn IndexError (lit "list index out of range"))
    | Some i =>
        match win_cards win !! i with
        | Some card => _play (card_game card) win
        | None => raiseE (Exn IndexError (lit "list index out of range"))
        end
    end.

(** The [for idx, g in enumerate(self.games)] loop of [_populate_grid],
    with the row [r] and column [c] of the next card. *)
Fixpoint populate_from (games : list Game) (r c : Z) : UI unit :=
  match games with
  | [] => retU tt
  | g :: rest =>
      let+ _ :=
        (fun win =>
           let card := {| card_game := g; card_cover := None |} in
           let i := length (win_cards win) in
           let* _ := logE (QAddWidget i r c) in
           let win' :=
             with_grid (with_cards win (win_cards win ++ [card]))
               (win_grid win ++ [(i, r, c)]) in
           match g_key g, g_name g with
           | None, _ => raiseE (Exn KeyError (lit "key"))
           | Some _, None => raiseE (Exn KeyError (lit "name"))
           | Some k, Some name =>
               let request :=
                 fetch w (win_fetcher win') k name (g_image_url g) in
               let* _ := core request in
               deliver_signals (events request) win'
           end) in
      let c' := (c + 1)%Z in
      if (c' >=? 4)%Z then populate_from rest (r + 1)%Z 0%Z
      else populate_from rest r c'
  end.

Definition _populate_grid : UI unit :=
  fun win => populate_from (win_games win) 0%Z 0%Z (with_grid win []).
End BigPicture.

(** A card of another game than the one with key [k]. *)
Definition other_key (k : str) (c : Card) : Prop :=
  exists k', g_key (card_game c) = Some k' /\ k' <> k.

(** The card with the cover at [path]. *)
Definition covered (c : Card) (path : str) : Card :=
  {| card_game := card_game c; card_cover := Some path |}.

Definition sample_game (k name console rom : string) : Game :=
  {| g_key := Some (lit k); g_name := Some (lit name);
     g_console := Some (lit console); g_rom_path := Some (lit rom);
     g_image_url := None; g_file := None |}.

Definition sample_window (cards : list Card) (selected : Z) : Window :=
  {| win_id := 1%N; win_cfg := default_config;
     win_fetcher := sample_fetcher;
     win_games := map card_game cards;
     win_cards := cards; win_grid := [];
     win_selected := selected |}.

Definition zelda : Game :=
  sample_game "NES::Zelda" "Zelda" "NES" "roms/NES/zelda.nes".

Definition metroid : Game :=
  sample_game "NES::Metroid" "Metroid" "NES" "roms/NES/metroid.nes".

Definition placeholder_card (g : Game) : Card :=
  {| card_game := g; card_cover := None |}.

(** Events that only read the filesystem. *)
Definition is_lookup (ev : event) : bool :=
  match ev with
  | EvPathExists _ | EvIsDir _ | EvIsFile _ | EvListDir _ => true
  | _ => false
  end.

(** Two states of the window that differ at most in the covers shown. *)
Definition same_but_covers (win win' : Window) : Prop :=
  win_id win' = win_id win /\ win_cfg win' = win_cfg win /\
  win_fetcher win' = win_fetcher win /\ win_games win' = win_games win /\
  map card_game (win_cards win') = map card_game (win_cards win) /\
  win_grid win' = win_grid win /\ win_selected win' = win_selected win.

Definition has_key (c : Card) : Prop := is_Some (g_key (card_game c)).

Definition has_key_and_name (g : Game) : Prop :=
  is_Some (g_key g) /\ is_Some (g_name g).

(** Where [_populate_grid] puts the cards of [games], four to a row, when
    the first of them is card number [first] and goes to slot [slot]
    (counting slots row by row). *)
Definition placements (first : nat) (slot : Z) (games : list Game)
    : list (nat * Z * Z) :=
  imap (fun j _ => ((first + j)%nat,
                    ((slot + Z.of_nat j) / 4)%Z,
                    ((slot + Z.of_nat j) mod 4)%Z)) games.

(** The keys for which a cover was requested, as the events show them: a
    request ends in a signal for its key or in a worker started for it. *)
Definition requested_keys (t : trace) : list str :=
  flat_map (fun ev =>
    match ev with
    | EvImageReady k _ => [k]
    | EvThreadStart (WorkerThread _ k _ _ _) => [k]
    | _ => []
    end) t.

(** ** config.py *)

Fixpoint drop_while (f : N -> bool) (s : str) : str :=
  match s with
  | c :: t => if f c then drop_while f t else s
  | [] => []
  end.

(** [posixpath.dirname(p)] *)
Definition os_path_dirname (p : str) : str :=
  let head := rev (drop_while (fun c => negb (c =? 47)%N) (rev p)) in
  if negb (str_eqb head []) && negb (forallb (N.eqb 47) head)
  then rev (drop_while (N.eqb 47) (rev head))
  else head.

(** [os.makedirs(name, exist_ok=True)]: the empty name is no directory and
    cannot be made one. *)
Definition os_makedirs (w : World) (name : str) : outcome unit :=
  if str_eqb name [] then Raise (Exn FileNotFoundError
                                   (lit "[Errno 2] No such file or directory: ''"))
  else w_makedirs w name.

Definition CONFIG_PATH : str := lit "config.json".

Definition DEFAULT : json :=
  JDict [(lit "roms_dir", JStr (lit "roms"));
         (lit "covers_dir", JStr (lit "resources/covers"));
         (lit "recent_file", JStr (lit "recent.json"));
         (lit "playtime_file", JStr (lit "playtime.json"));
         (lit "rawg_api_key", JStr []);
         (lit "emulators",
          JDict [(lit "NES", JStr (lit "emulators/nestopia.exe"));
                 (lit "SNES", JStr (lit "emulators/snes9x.exe"));
                 (lit "GBA", JStr (lit "emulators/visualboyadvance.exe"))])].

(** What [json.load] makes of a file: a value, a [json.JSONDecodeError],
    or another exception (reading, decoding the bytes). *)
Inductive json_read : Type :=
| Loaded (v : json)
| DecodeError (msg : str)
| ReadError (e : exn).

Section ConfigFile.
Variable w : World.
(** [open(path, mode, encoding="utf-8")] *)
Variable open_text : str -> str -> outcome unit.
Variable close_text : str -> outcome unit.
Variable json_load : str -> json_read.
Variable json_dump : str -> json -> outcome unit.

Definition save_config (c : json) : E unit :=
  try_exceptE
    (let* _ := core (call (EvMakedirs (os_path_dirname CONFIG_PATH))
                       (os_makedirs w (os_path_dirname CONFIG_PATH))) in
     let* _ := callE (OpenText CONFIG_PATH (lit "w"))
                 (open_text CONFIG_PATH (lit "w")) in
     let* _ := logE (JsonDump CONFIG_PATH c) in
     let* _ := callE (CloseText CONFIG_PATH) (close_text CONFIG_PATH) in
     (json_dump CONFIG_PATH c, []))
    is_OSError
    (fun e => core (log (EvPrint (lit "Error saving config: {e}")
                           [JStr (exn_str e)]))).

(** [inl v]: the [return json.load(f)] was reached with [v]; [inr msg]:
    an exception of the [except] clause was caught, with text [msg]. *)
Definition load_config : E json :=
  let* present :=
    core (call (EvPathExists CONFIG_PATH) (Ret (w_exists w CONFIG_PATH))) in
  let* _ := (if negb present then save_config DEFAULT else retE tt) in
  let* attempt :=
    try_exceptE
      (let* _ := callE (OpenText CONFIG_PATH (lit "r"))
                   (open_text CONFIG_PATH (lit "r")) in
       let* _ := logE (JsonLoad CONFIG_PATH) in
       let* _ := callE (CloseText CONFIG_PATH) (close_text CONFIG_PATH) in
       match json_load CONFIG_PATH with
       | Loaded v => retE (inl v)
       | DecodeError msg => retE (inr msg)
       | ReadError e => raiseE e
       end)
      is_OSError
      (fun e => retE (inr (exn_str e))) in
  match attempt with
  | inl v => retE v
  | inr msg =>
      let* _ := core (log (EvPrint
        (lit "Error loading config: {e}. Using default configuration.")
        [JStr msg])) in
      retE DEFAULT
  end.
End ConfigFile.

(** The files opened for writing. *)
Definition opened_for_writing (t : list app_event) : list str :=
  flat_map (fun ev =>
    match ev with
    | OpenText p mode => if str_eqb mode (lit "w") then [p] else []
    | _ => []
    end) t.

(** ** games.py *)

Definition SUPPORTED_EXTS : list str :=
  [lit ".nes"; lit ".smc"; lit ".sfc"; lit ".gba"; lit ".gbc"; lit ".gb"].

(** [s.endswith(tuple)] *)
Definition endswith_any (exts : list str) (s : str) : bool :=
  existsb (fun ext => endswith ext s) exts.

(** [s.rfind(c)], with -1 when [c] does not occur. *)
Fixpoint rfind_from (c : N) (s : str) (i best : Z) : Z :=
  match s with
  | [] => best
  | x :: t => rfind_from c t (i + 1)%Z (if (x =? c)%N then i else best)
  end.

Definition rfind (c : N) (s : str) : Z := rfind_from c s 0 (-1).

(** [posixpath.splitext(p)]: the extension starts at the last dot of the
    last component, unless only dots come before it there. *)
Definition splitext (p : str) : str * str :=
  let sep := rfind 47 p in
  let dot := rfind 46 p in
  if (dot >? sep)%Z then
    let before := firstn (Z.to_nat (dot - (sep + 1)))
                    (skipn (Z.to_nat (sep + 1)) p) in
    if forallb (N.eqb 46) before then (p, [])
    else (firstn (Z.to_nat dot) p, skipn (Z.to_nat dot) p)
  else (p, []).

(** Strings compare by code points, as in Python. *)
Fixpoint str_leb (a b : str) : bool :=
  match a, b with
  | [], _ => true
  | _ :: _, [] => false
  | x :: a', y :: b' =>
      if (x <? y)%N then true
      else if (y <? x)%N then false
      else str_leb a' b'
  end.

Fixpoint insert_sorted (x : str) (l : list str) : list str :=
  match l with
  | [] => [x]
  | y :: t => if str_leb x y then x :: l else y :: insert_sorted x t
  end.

(** [sorted(l)] for a list of strings. *)
Definition sorted (l : list str) : list str := fold_right insert_sorted [] l.

(** [posixpath.isabs(p)] *)
Definition os_path_isabs (p : str) : bool := startswith (lit "/") p.

(** What [json.load] makes of data/games.json: a list of game
    dictionaries, a [json.JSONDecodeError], or another exception.  The
    file is taken to hold a list of dictionaries with string values; a
    file of another shape is not covered. *)
Inductive games_read : Type :=
| GamesLoaded (entries : list Game)
| GamesDecodeError (msg : str)
| GamesReadError (e : exn).

Section ScanRoms.
Variable w : World.
Variable open_text : str -> str -> outcome unit.
Variable close_text : str -> outcome unit.
Variable games_load : str -> games_read.
(** [os.path.abspath] *)
Variable abspath : str -> str.
(** [os.path.isdir] and [os.listdir] of an integer, which Python takes
    for a file descriptor: [isdir] answers [False] for a descriptor that is
    not open, and both raise for an integer that is no C [int]. *)
Variable isdir_fd : Z -> outcome bool.
Variable listdir_fd : Z -> outcome (list str).

(** The [for g in loaded] loop. *)
Fixpoint load_entries (entries : list Game) : E (list Game) :=
  match entries with
  | [] => retE []
  | g :: rest =>
      match g_console g, g_rom_path g with
      | Some console, Some path =>
          if negb (truthy (JStr console)) || negb (truthy (JStr path)) then
            let* _ := core (log (EvPrint
              (lit "Skipping invalid entry (missing console/path): {g}")
              [game_json g])) in
            load_entries rest
          else
            let* path' :=
              (if negb (os_path_isabs path)
               then callE (OsAbspath path) (Ret (abspath path))
               else retE path) in
            let g' :=
              {| g_key :=
                   Some (default
                           (console ++ lit "::" ++
                            default (lit "Unknown") (g_name g))
                           (g_key g));
                 g_name := g_name g;
                 g_console := g_console g;
                 g_rom_path := Some path';
                 g_image_url := g_image_url g;
                 g_file := g_file g |} in
            let* games := load_entries rest in
            retE (g' :: games)
      | _, _ =>
          let* _ := core (log (EvPrint
            (lit "Skipping invalid entry (missing console/path): {g}")
            [game_json g])) in
          load_entries rest
      end
  end.

(** The [for file in sorted(os.listdir(cpath))] loop. *)
Fixpoint scan_files (console cpath : str) (files : list str)
    : E (list Game) :=
  match files with
  | [] => retE []
  | file :: rest =>
      if endswith_any SUPPORTED_EXTS (lower w file) then
        let name := fst (splitext file) in
        let joined := os_path_join cpath file in
        let* rom_path := callE (OsAbspath joined) (Ret (abspath joined)) in
        let g := {| g_key := Some (console ++ lit "::" ++ name);
                    g_name := Some name;
                    g_console := Some console;
                    g_rom_path := Some rom_path;
                    g_image_url := None;
                    g_file := Some file |} in
        let* games := scan_files console cpath rest in
        retE (g :: games)
      else scan_files console cpath rest
  end.

(** The [for console in sorted(os.listdir(roms_dir))] loop. *)
Fixpoint scan_consoles (roms_dir : str) (consoles : list str)
    : E (list Game) :=
  match consoles with
  | [] => retE []
  | console :: rest =>
      let cpath := os_path_join roms_dir console in
      let* is_dir := core (call (EvIsDir cpath) (Ret (w_isdir w cpath))) in
      if negb is_dir then scan_consoles roms_dir rest
      else
        let* files := core (call (EvListDir cpath) (w_listdir w cpath)) in
        let* games := scan_files console cpath (sorted files) in
        let* more := scan_consoles roms_dir rest in
        retE (games ++ more)
  end.

Definition data_file : str := os_path_join (lit "data") (lit "games.json").

(** The folder scan for a "roms_dir" that is an integer or a boolean
    ([True] is 1, [False] is 0), printed as [shown].  Such a value passes
    [os.path.isdir] and [os.listdir] as a file descriptor; the first
    [os.path.join(roms_dir, console)] then raises [TypeError]. *)
Definition scan_descriptor (fd : Z) (shown : json) (type_name : str)
    : E (option (list Game)) :=
  let* is_dir := callE (FdIsDir fd) (isdir_fd fd) in
  if negb is_dir then
    let* _ := core (log (EvPrint (lit "No ROMs directory found:") [shown])) in
    retE None
  else
    let* consoles := callE (FdListDir fd) (listdir_fd fd) in
    match sorted consoles with
    | [] => retE (Some [])
    | _ :: _ =>
        raiseE (Exn TypeError
                  (lit "expected str, bytes or os.PathLike object, not "
                   ++ type_name))
    end.

(** [os.path.isdir] of a value that is neither a path nor an integer. *)
Definition isdir_type_error {A} (type_name : str) : E A :=
  raiseE (Exn TypeError
            (lit "stat: path should be string, bytes, os.PathLike or integer, not "
             ++ type_name)).

(** In [scanned], [None] is the early [return []] for a missing ROMs
    directory. *)
Definition scan_roms (c : json) : E (list Game) :=
  let* present :=
    core (call (EvPathExists data_file) (Ret (w_exists w data_file))) in
  let* games :=
    (if present then
       try_exceptE
         (let* _ := callE (OpenText data_file (lit "r"))
                      (open_text data_file (lit "r")) in
          let* _ := logE (JsonLoad data_file) in
          match games_load data_file with
          | GamesLoaded entries =>
              let* games := load_entries entries in
              try_exceptE
                (let* _ := callE (CloseText data_file)
                             (close_text data_file) in
                 retE games)
                is_OSError
                (fun e =>
                   let* _ := core (log (EvPrint
                     (lit "Error loading data/games.json: {e}")
                     [JStr (exn_str e)])) in
                   retE games)
          | GamesDecodeError msg =>
              let* _ := callE (CloseText data_file) (close_text data_file) in
              let* _ := core (log (EvPrint
                (lit "Error loading data/games.json: {e}") [JStr msg])) in
              retE []
          | GamesReadError e =>
              let* _ := callE (CloseText data_file) (close_text data_file) in
              raiseE e
          end)
         is_OSError
         (fun e =>
            let* _ := core (log (EvPrint
              (lit "Error loading data/games.json: {e}")
              [JStr (exn_str e)])) in
            retE [])
     else retE []) in
  let* scanned :=
    (match games with
     | _ :: _ => retE (Some games)
     | [] =>
         let* roms_dir :=
           (match c with
            | JDict kv => retE (default (JStr (lit "roms"))
                                  (assoc (lit "roms_dir") kv))
            | _ => raiseE (Exn AttributeError
                             (lit "object has no attribute 'get'"))
            end) in
         match roms_dir with
         | JStr roms_dir =>
             let* is_dir :=
               core (call (EvIsDir roms_dir) (Ret (w_isdir w roms_dir))) in
             if negb is_dir then
               let* _ := core (log (EvPrint (lit "No ROMs directory found:")
                                      [JStr roms_dir])) in
               retE None
             else
               let* consoles :=
                 core (call (EvListDir roms_dir) (w_listdir w roms_dir)) in
               let* found := scan_consoles roms_dir (sorted consoles) in
               retE (Some found)
         | JNum fd => scan_descriptor fd (JNum fd) (lit "int")
         | JBool b =>
             scan_descriptor (if b then 1 else 0) (JBool b) (lit "bool")
         | JNull => isdir_type_error (lit "NoneType")
         | JList _ => isdir_type_error (lit "list")
         | JDict _ => isdir_type_error (lit "dict")
         end
     end) in
  match scanned with
  | None => retE []
  | Some games =>
      let* _ := core (log (EvPrint (lit "Loaded {len(games)} games.")
                             [JNum (Z.of_nat (length games))])) in
      retE games
  end.
End ScanRoms.

(** A game as the folder scan builds it from the file [file] of the
    console directory [console] under [roms_dir]. *)
Definition from_folder (w : World) (abspath : str -> str) (roms_dir : str)
    (g : Game) : Prop :=
  exists console file,
    g_console g = Some console /\ g_file g = Some file
    /\ g_name g = Some (fst (splitext file))
    /\ g_key g = Some (console ++ lit "::" ++ fst (splitext file))
    /\ g_rom_path g =
         Some (abspath (os_path_join (os_path_join roms_dir console) file))
    /\ g_image_url g = None
    /\ endswith_any SUPPORTED_EXTS (lower w file) = true
    /\ w_isdir w (os_path_join roms_dir console) = true.

(** The "roms_dir" of a configuration, "roms" when there is none. *)
Definition roms_dir_of (c : json) : str :=
  match c with
  | JDict kv =>
      match assoc (lit "roms_dir") kv with
      | Some (JStr s) => s
      | _ => lit "roms"
      end
  | _ => lit "roms"
  end.

(** A window before [_populate_grid], for the given games. *)
Definition fresh_window (id : widget) (c : Config) (fetcher : ImageFetcher)
    (games : list Game) : Window :=
  {| win_id := id; win_cfg := c; win_fetcher := fetcher;
     win_games := games; win_cards := []; win_grid := [];
     win_selected := 0 |}.

(** The dictionary that the folder scan builds for one ROM file. *)
Definition folder_game (abspath : str -> str) (console cpath file : str)
    : Game :=
  {| g_key := Some (console ++ lit "::" ++ fst (splitext file));
     g_name := Some (fst (splitext file));
     g_console := Some console;
     g_rom_path := Some (abspath (os_path_join cpath file));
     g_image_url := None;
     g_file := Some file |}.

Definition is_supported (w : World) (file : str) : bool :=
  endswith_any SUPPORTED_EXTS (lower w file).

(** A ROMs directory with one console directory and a stray file. *)
Definition roms_world : World :=
  {| w_exists := fun _ => false;
     w_isdir := fun p => str_eqb p (lit "roms") || str_eqb p (lit "roms/NES");
     w_isfile := fun _ => false;
     w_listdir := fun p =>
       if str_eqb p (lit "roms") then Ret [lit "readme.txt"; lit "NES"]
       else if str_eqb p (lit "roms/NES")
            then Ret [lit "zelda.nes"; lit "notes.txt"; lit "zelda.GB"]
            else Raise no_such_file;
     w_makedirs := fun _ => Ret tt;
     w_get := fun _ _ _ => Raise connection_error;
     w_open_wb := fun _ => Ret tt;
     w_write := fun _ _ => Ret tt;
     w_close := fun _ => Ret tt;
     w_replace := fun _ _ => Ret tt;
     w_popen := fun _ => Raise no_such_file;
     w_wait := fun _ => 0%Z;
     w_quote_plus := fun s => Ret s;
     unicode_isalnum := fun _ => false;
     unicode_lower := fun s => s |}.

Definition sample_abspath (p : str) : str := lit "/home/user/" ++ p.

(** What [os.listdir] raises for a descriptor that is not open. *)
Definition bad_descriptor : exn :=
  Exn OSError (lit "[Errno 9] Bad file descriptor").

(** The card of a game right after [_populate_grid]: it shows the cached
    cover when there is one that loads, and the placeholder otherwise. *)
Definition card_after_populate (w : World) (pixmap_is_null : str -> bool)
    (fetcher : ImageFetcher) (g : Game) : Card :=
  {| card_game := g;
     card_cover :=
       match g_key g with
       | Some k =>
           let path := _local_path_for w fetcher k in
           if w_exists w path && negb (pixmap_is_null path)
           then Some path else None
       | None => None
       end |}.

(** * Facts *)

Ltac run :=
  unfold bind, call, log, ret, raise, pure, try_except, result, events;
  simpl.

Lemma str_eqb_refl (s : str) : str_eqb s s = true.
Proof. unfold str_eqb. apply bool_decide_eq_true_2. reflexivity. Qed.

Lemma str_eqb_char (c d : N) : str_eqb [c] [d] = (c =? d)%N.
Proof.
  unfold str_eqb. destruct (N.eqb_spec c d) as [->|Hne].
  - apply bool_decide_eq_true_2. reflexivity.
  - apply bool_decide_eq_false_2. intros Heq. apply Hne. congruence.
Qed.

Lemma in_range_above (lo hi c : N) : (c < lo)%N -> in_range lo hi c = false.
Proof.
  intros Hlt. unfold in_range.
  destruct (N.leb_spec lo c) as [Hle|_]; [lia | reflexivity].
Qed.

(** ** images.py: the cache path *)

Section CachePath.
Variable w : World.

Lemma safe_key_map (key : str) :
  concat (map (fun c =>
    if isalnum w c || char_in c [lit "_"; lit "-"; lit "."]
    then [c] else lit "_") key)
  = map (fun c => if keeps w c then c else 95%N) key.
Proof.
  induction key as [|c key IH]; [reflexivity|].
  cbn [map concat]. rewrite IH. unfold keeps, char_in.
  change (lit "_") with [95%N]. change (lit "-") with [45%N].
  change (lit ".") with [46%N]. cbn [existsb].
  rewrite !str_eqb_char, orb_false_r.
  destruct (isalnum w c), (c =? 95)%N, (c =? 45)%N, (c =? 46)%N;
    reflexivity.
Qed.

Lemma keeps_ascii (c : N) : (c < 128)%N -> keeps w c = spec_keeps c.
Proof.
  intros Hc. unfold keeps, spec_keeps, isalnum, latin1_isalnum.
  destruct (N.ltb_spec c 256) as [_|Hge]; [|lia].
  cbn [existsb fst snd].
  rewrite (in_range_above 170), (in_range_above 178), (in_range_above 181),
    (in_range_above 185), (in_range_above 188), (in_range_above 192),
    (in_range_above 216), (in_range_above 248) by lia.
  destruct (in_range 48 57 c), (in_range 65 90 c), (in_range 97 122 c),
    (c =? 95)%N, (c =? 45)%N, (c =? 46)%N; reflexivity.
Qed.
End CachePath.

(** C5, as amended.  The cache path is [covers_dir] joined with the key in
    which every character that is neither alphanumeric in Python's sense
    ([str.isalnum], which also holds of letters and digits outside ASCII)
    nor one of '_', '-', '.' is replaced by '_', followed by ".png"; for a
    key of ASCII characters this is the specification's class
    [A-Za-z0-9_.-]. *)
Theorem local_path_for_sanitizes (w : World) (self : ImageFetcher) (key : str) :
  _local_path_for w self key =
    os_path_join (covers_dir self)
      (map (fun c => if keeps w c then c else 95%N) key ++ lit ".png")
  /\ (Forall (fun c => (c < 128)%N) key ->
      _local_path_for w self key = spec_path_for (covers_dir self) key).
Proof.
  unfold _local_path_for. rewrite safe_key_map. split; [reflexivity|].
  intros Hascii. unfold spec_path_for. do 2 f_equal.
  induction Hascii as [|c key Hc _ IH]; [reflexivity|].
  cbn [map]. rewrite IH, (keeps_ascii w c Hc). reflexivity.
Qed.

(** ** Effects *)

Lemma result_bind {A B} (m : M A) (f : A -> M B) :
  result (bind m f) =
    match result m with Ret a => result (f a) | Raise e => Raise e end.
Proof. destruct m as [[a|e] t]; run; [destruct (f a)|]; reflexivity. Qed.

Lemma events_bind {A B} (m : M A) (f : A -> M B) :
  events (bind m f) =
    match result m with
    | Ret a => events m ++ events (f a)
    | Raise _ => events m
    end.
Proof. destruct m as [[a|e] t]; run; [destruct (f a)|]; reflexivity. Qed.

Lemma bind_ret {A B} (a : A) (f : A -> M B) : bind (ret a) f = f a.
Proof. run. destruct (f a). reflexivity. Qed.

Lemma bind_call_ret {A B} (ev : event) (a : A) (f : A -> M B) :
  bind (call ev (Ret a)) f = (result (f a), ev :: events (f a)).
Proof. run. destruct (f a). reflexivity. Qed.

Lemma deliveries_app (key : str) (t t' : trace) :
  deliveries key (t ++ t') = deliveries key t ++ deliveries key t'.
Proof. apply flat_map_app. Qed.

Lemma http_gets_app (t t' : trace) :
  http_gets (t ++ t') = http_gets t ++ http_gets t'.
Proof. apply flat_map_app. Qed.

Lemma started_app (t t' : trace) : started (t ++ t') = started t ++ started t'.
Proof. apply flat_map_app. Qed.

Lemma file_io_http_gets (t : trace) :
  forallb is_file_io t = true -> http_gets t = [].
Proof.
  induction t as [|ev t IH]; [reflexivity|]. cbn [forallb].
  intros [Hev Ht]%andb_prop. destruct ev; try discriminate; cbn; auto.
Qed.

Lemma file_io_silent (t : trace) :
  forallb is_file_io t = true -> forallb is_silent t = true.
Proof.
  induction t as [|ev t IH]; [reflexivity|]. cbn [forallb].
  intros [Hev Ht]%andb_prop. rewrite (IH Ht).
  destruct ev; try discriminate; reflexivity.
Qed.

Lemma silent_deliveries (key : str) (t : trace) :
  forallb is_silent t = true -> deliveries key t = [].
Proof.
  induction t as [|ev t IH]; [reflexivity|]. cbn [forallb].
  intros [Hev Ht]%andb_prop. destruct ev; try discriminate; cbn; auto.
Qed.

Lemma silent_started (t : trace) :
  forallb is_silent t = true -> started t = [].
Proof.
  induction t as [|ev t IH]; [reflexivity|]. cbn [forallb].
  intros [Hev Ht]%andb_prop. destruct ev; try discriminate; cbn; auto.
Qed.

(** ** images.py: one download *)

Section Download.
Variable w : World.

Lemma write_chunks_file_io (p : str) (chunks : list bytes)
    (last : option exn) :
  forallb is_file_io (events (write_chunks w p chunks last)) = true.
Proof.
  induction chunks as [|c rest IH]; cbn [write_chunks].
  - destruct last; reflexivity.
  - rewrite events_bind. unfold call at 1 2. cbn [result events fst snd].
    destruct (w_write w p c); [|reflexivity].
    cbn [forallb app is_file_io andb]. exact IH.
Qed.

Lemma with_open_wb_file_io {A} (p : str) (body : M A) :
  forallb is_file_io (events body) = true ->
  forallb is_file_io (events (with_open_wb w p body)) = true.
Proof.
  intros Hbody. unfold with_open_wb. rewrite events_bind.
  unfold call at 1 2. cbn [result events fst snd].
  destruct (w_open_wb w p); [|reflexivity].
  destruct body as [r t]. cbn [events snd] in Hbody.
  destruct (w_close w p); cbn [events snd app forallb is_file_io andb];
    rewrite forallb_app, Hbody; reflexivity.
Qed.

(** The body of the [try] in [_try_download]. *)
Lemma try_download_events (url : json) (p : str) :
  exists t, events (_try_download w url p) = EvHttpGet url 10 true :: t
            /\ forallb is_file_io t = true.
Proof.
  unfold _try_download.
  destruct (w_get w url 10 true) as [response|e].
  - pose proof (with_open_wb_file_io (p ++ lit ".tmp") _
      (write_chunks_file_io (p ++ lit ".tmp") (content_chunks response)
         (stream_error response))) as Hio.
    run.
    destruct (with_open_wb w _ _) as [[[]|e] t]; cbn [events snd] in Hio.
    all: unfold raise_for_status;
      destruct ((400 <=? status_code response)%Z &&
                (status_code response <? 600)%Z); run.
    all: try (eexists; split; [reflexivity|]; reflexivity).
    all: try destruct (w_replace w _ _); try destruct (is_RequestException e);
      try destruct (is_RequestException _); run.
    all: eexists; (split; [reflexivity|]);
      rewrite ?forallb_app, ?Hio; reflexivity.
  - run. destruct (is_RequestException e); eexists; split; reflexivity.
Qed.
End Download.

Lemma silent_bind {A B} (m : M A) (f : A -> M B) :
  forallb is_silent (events m) = true ->
  (forall a, forallb is_silent (events (f a)) = true) ->
  forallb is_silent (events (bind m f)) = true.
Proof.
  intros Hm Hf. rewrite events_bind. destruct (result m) as [a|e]; [|exact Hm].
  rewrite forallb_app, Hm. apply Hf.
Qed.

Lemma silent_try_except {A} (body : M A) (catches : exn -> bool)
    (handler : exn -> M A) :
  forallb is_silent (events body) = true ->
  (forall e, forallb is_silent (events (handler e)) = true) ->
  forallb is_silent (events (try_except body catches handler)) = true.
Proof.
  intros Hb Hh. unfold try_except. destruct body as [[a|e] t]; [exact Hb|].
  destruct (catches e); [|exact Hb]. specialize (Hh e).
  destruct (handler e) as [r t']. cbn [events snd] in *.
  rewrite forallb_app, Hb. exact Hh.
Qed.

Section Worker.
Variable w : World.

(** An exception leaves a [try ... except RequestException] only when it
    is not a [RequestException]. *)
Lemma try_except_escape {A} (body : M A) (handler : exn -> M A) (e : exn) :
  (forall e0 e', result (handler e0) <> Raise e') ->
  result (try_except body is_RequestException handler) = Raise e ->
  is_RequestException e = false.
Proof.
  intros Hh. unfold try_except. destruct body as [[a|e0] t]; [discriminate|].
  destruct (is_RequestException e0) eqn:He0.
  - specialize (Hh e0 e). destruct (handler e0) as [r t'].
    cbn [result fst] in *. congruence.
  - cbn [result fst]. congruence.
Qed.

Lemma try_download_escape (url : json) (p : str) (e : exn) :
  result (_try_download w url p) = Raise e -> is_RequestException e = false.
Proof. apply try_except_escape. intros e0 e'. run. discriminate. Qed.

Lemma try_download_http_gets (url : json) (p : str) :
  http_gets (events (_try_download w url p)) = [url].
Proof.
  destruct (try_download_events w url p) as (t & -> & Ht).
  change (http_gets (EvHttpGet url 10 true :: t)) with (url :: http_gets t).
  rewrite (file_io_http_gets t Ht). reflexivity.
Qed.

Lemma try_download_silent (url : json) (p : str) :
  forallb is_silent (events (_try_download w url p)) = true.
Proof.
  destruct (try_download_events w url p) as (t & -> & Ht).
  cbn. apply file_io_silent, Ht.
Qed.

Lemma try_fetch_from_rawg_silent (self : ImageFetcher) (name p : str) :
  forallb is_silent (events (_try_fetch_from_rawg w self name p)) = true.
Proof.
  unfold _try_fetch_from_rawg, raise_for_status, py_get, py_index0,
    py_getitem.
  repeat first
    [ apply try_download_silent
    | apply silent_bind; [|intros ?]
    | apply silent_try_except; [|intros ?]
    | reflexivity
    | match goal with
      | |- context [if ?b then _ else _] => destruct b
      | |- context [match ?x with _ => _ end] => destruct x
      end ].
Qed.

Lemma try_fetch_from_rawg_escape (self : ImageFetcher) (name p : str)
    (e : exn) :
  result (_try_fetch_from_rawg w self name p) = Raise e ->
  is_RequestException e = false.
Proof.
  unfold _try_fetch_from_rawg. rewrite result_bind.
  match goal with |- context [try_except ?b ?c ?h] =>
    pose proof (try_except_escape b h e) as Hesc;
    destruct (result (try_except b c h)) as [r|e0] end.
  - discriminate.
  - intros [= ->]. apply Hesc; [|reflexivity].
    intros e0 e'. run. discriminate.
Qed.

(** What a worker does, whatever the surroundings answer: it returns after
    exactly one [image_ready] for its key, which is its last event, or it
    dies of an exception that is not a [RequestException] and has emitted
    nothing. *)
Lemma worker_outcome (self : ImageFetcher) (key name : str)
    (url : option str) (p : str) :
  (result (_worker w self key name url p) = Ret tt /\
   exists t path,
     events (_worker w self key name url p) = t ++ [EvImageReady key path]
     /\ forallb is_silent t = true /\ (path = p \/ path = []))
  \/ (exists e,
        result (_worker w self key name url p) = Raise e /\
        is_RequestException e = false /\
        forallb is_silent (events (_worker w self key name url p)) = true).
Proof.
  unfold _worker.
  set (direct := match url with Some u => _ | None => _ end).
  assert (forallb is_silent (events direct) = true /\
          forall e, result direct = Raise e -> is_RequestException e = false)
    as [Hsil Hesc].
  { subst direct. destruct url as [u|]; [|split; [reflexivity|discriminate]].
    destruct (truthy (JStr u)); [|split; [reflexivity|discriminate]].
    split; [apply try_download_silent | apply try_download_escape]. }
  destruct direct as [[[]|e] t]; cbn [result events fst snd] in *.
  - left. run. split; [reflexivity|]. exists t, p. auto.
  - set (api := if truthy (JStr (api_key self)) then _ else _).
    assert (forallb is_silent (events api) = true /\
            forall e, result api = Raise e -> is_RequestException e = false)
      as [Hsil2 Hesc2].
    { subst api. destruct (truthy (JStr (api_key self)));
        [|split; [reflexivity|discriminate]].
      split; [apply try_fetch_from_rawg_silent
             | apply try_fetch_from_rawg_escape]. }
    destruct api as [[[]|e] t2]; cbn [result events fst snd] in *.
    + left. run. split; [reflexivity|]. exists (t ++ t2), p.
      rewrite app_assoc, forallb_app, Hsil, Hsil2. auto.
    + left. run. split; [reflexivity|]. exists (t ++ t2), [].
      rewrite app_assoc, forallb_app, Hsil, Hsil2. auto.
    + right. exists e. run. rewrite forallb_app, Hsil, Hsil2. auto.
  - right. exists e. run. auto.
Qed.
End Worker.

(** An empty or absent "rawg_api_key", and one made of blanks only, leave
    the fetcher without an API key. *)
Lemma init_without_api_key (w : World) (c : Config) (self : ImageFetcher) :
  result (ImageFetcher_init w c) = Ret self ->
  cfg_rawg_api_key c = None \/ cfg_rawg_api_key c = Some [] \/
    cfg_rawg_api_key c = Some (lit "  ") ->
  api_key self = [].
Proof.
  unfold ImageFetcher_init. run.
  destruct (w_makedirs w _); [|discriminate]. intros [= <-].
  intros [-> | [-> | ->]]; reflexivity.
Qed.

(** ** images.py: the claims *)

(** C5 as stated fails: 'é' (U+00E9) is alphanumeric for Python, so the key
    "é" keeps its character, where the class [A-Za-z0-9_.-] would turn it
    into '_'. *)
Lemma local_path_for_keeps_e_acute :
  _local_path_for online_world sample_fetcher [233%N]
    = lit "resources/covers/" ++ [233%N] ++ lit ".png"
  /\ spec_path_for (covers_dir sample_fetcher) [233%N]
    = lit "resources/covers/_.png"
  /\ _local_path_for online_world sample_fetcher [233%N]
    <> spec_path_for (covers_dir sample_fetcher) [233%N].
Proof. repeat split; try reflexivity. vm_compute. discriminate. Qed.

Lemma local_path_for_sanitizes_witness :
  _local_path_for online_world sample_fetcher (lit "NES::Zelda II")
    = lit "resources/covers/NES__Zelda_II.png".
Proof.
  destruct (local_path_for_sanitizes online_world sample_fetcher
              (lit "NES::Zelda II")) as [_ Hascii].
  rewrite Hascii; [reflexivity|].
  vm_compute. repeat constructor.
Defined.

(** C3.  When the cover of a key is already on disk, [fetch] emits
    [image_ready] with the cached path before it returns: its only events
    are the existence check and the signal, so it requests nothing over HTTP
    and starts no worker, also counting what started threads would do. *)
Theorem fetch_cached_is_synchronous (w : World) (self : ImageFetcher)
    (key name : str) (url : option str) :
  w_exists w (_local_path_for w self key) = true ->
  fetch w self key name url =
    (Ret tt, [EvPathExists (_local_path_for w self key);
              EvImageReady key (_local_path_for w self key)])
  /\ started (events (fetch w self key name url)) = []
  /\ http_gets (to_completion w (fetch w self key name url)) = []
  /\ deliveries key (to_completion w (fetch w self key name url))
     = [_local_path_for w self key].
Proof.
  intros Hcached.
  assert (fetch w self key name url =
    (Ret tt, [EvPathExists (_local_path_for w self key);
              EvImageReady key (_local_path_for w self key)])) as Hfetch.
  { unfold fetch. run. rewrite Hcached. reflexivity. }
  unfold to_completion. rewrite Hfetch. cbn.
  rewrite str_eqb_refl. auto.
Qed.

Lemma fetch_cached_is_synchronous_witness :
  fetch full_world sample_fetcher (lit "NES::Zelda") (lit "Zelda")
    (Some (lit "http://covers.example/zelda.png"))
  = (Ret tt, [EvPathExists (lit "resources/covers/NES__Zelda.png");
              EvImageReady (lit "NES::Zelda")
                (lit "resources/covers/NES__Zelda.png")]).
Proof.
  apply (fetch_cached_is_synchronous full_world sample_fetcher
           (lit "NES::Zelda") (lit "Zelda")
           (Some (lit "http://covers.example/zelda.png"))).
  reflexivity.
Defined.

(** The worker's steps when its download returns.  When the download
    from a non-empty [url] answers [True], the worker's events are those of
    that download followed by the signal with the local path: the one HTTP
    request is the one to [url], and nothing is asked of the metadata API.
    When the API key is empty and [url] is absent, the worker's only event
    is the signal with the empty path; when the API key is empty and the
    download from [url] answers [False], its events are those of the
    download followed by the signal with the empty path, again with the
    single HTTP request to [url].  A download that ends in an exception is
    the subject of [worker_download_raises]. *)
Theorem worker_steps_in_order (w : World) (self : ImageFetcher)
    (key name : str) (url : option str) (p : str) :
  (forall u, url = Some u -> u <> [] ->
     result (_try_download w (JStr u) p) = Ret true ->
     _worker w self key name url p =
       (Ret tt, events (_try_download w (JStr u) p) ++ [EvImageReady key p])
     /\ http_gets (events (_worker w self key name url p)) = [JStr u])
  /\ (api_key self = [] -> url = None \/ url = Some [] ->
      _worker w self key name url p = (Ret tt, [EvImageReady key []]))
  /\ (api_key self = [] ->
      forall u, url = Some u -> u <> [] ->
      result (_try_download w (JStr u) p) = Ret false ->
      _worker w self key name url p =
        (Ret tt, events (_try_download w (JStr u) p) ++ [EvImageReady key []])
      /\ http_gets (events (_worker w self key name url p)) = [JStr u]).
Proof.
  assert (forall u : str, u <> [] -> truthy (JStr u) = true) as Htruthy.
  { intros u Hu. cbn. unfold str_eqb. rewrite bool_decide_eq_false_2; auto. }
  split; [|split].
  - intros u -> Hu Hok.
    assert (_worker w self key name (Some u) p =
      (Ret tt, events (_try_download w (JStr u) p) ++ [EvImageReady key p]))
      as Hworker.
    { unfold _worker. rewrite (Htruthy u Hu).
      destruct (_try_download w (JStr u) p) as [r t].
      cbn [result fst] in Hok. subst r. reflexivity. }
    split; [exact Hworker|]. rewrite Hworker. cbn [events snd].
    rewrite http_gets_app, try_download_http_gets. reflexivity.
  - intros Hkey [-> | ->]; unfold _worker; rewrite Hkey; reflexivity.
  - intros Hkey u -> Hu Hfail.
    assert (_worker w self key name (Some u) p =
      (Ret tt, events (_try_download w (JStr u) p) ++ [EvImageReady key []]))
      as Hworker.
    { unfold _worker. rewrite (Htruthy u Hu), Hkey.
      destruct (_try_download w (JStr u) p) as [r t].
      cbn [result fst] in Hfail. subst r. reflexivity. }
    split; [exact Hworker|]. rewrite Hworker. cbn [events snd].
    rewrite http_gets_app, try_download_http_gets. reflexivity.
Qed.

Lemma worker_steps_in_order_witness :
  http_gets (events (_worker online_world sample_fetcher (lit "NES::Zelda")
     (lit "Zelda") (Some (lit "http://covers.example/zelda.png"))
     (lit "resources/covers/NES__Zelda.png")))
    = [JStr (lit "http://covers.example/zelda.png")]
  /\ _worker offline_world sample_fetcher (lit "NES::Zelda") (lit "Zelda")
       None (lit "resources/covers/NES__Zelda.png")
     = (Ret tt, [EvImageReady (lit "NES::Zelda") []])
  /\ http_gets (events (_worker offline_world sample_fetcher
       (lit "NES::Zelda") (lit "Zelda")
       (Some (lit "http://covers.example/zelda.png"))
       (lit "resources/covers/NES__Zelda.png")))
     = [JStr (lit "http://covers.example/zelda.png")].
Proof.
  pose proof (worker_steps_in_order online_world sample_fetcher
    (lit "NES::Zelda") (lit "Zelda")
    (Some (lit "http://covers.example/zelda.png"))
    (lit "resources/covers/NES__Zelda.png")) as (Hdirect & _ & _).
  pose proof (worker_steps_in_order offline_world sample_fetcher
    (lit "NES::Zelda") (lit "Zelda") None
    (lit "resources/covers/NES__Zelda.png")) as (_ & Habsent & _).
  pose proof (worker_steps_in_order offline_world sample_fetcher
    (lit "NES::Zelda") (lit "Zelda")
    (Some (lit "http://covers.example/zelda.png"))
    (lit "resources/covers/NES__Zelda.png")) as (_ & _ & Hfailing).
  split; [|split].
  - apply (Hdirect (lit "http://covers.example/zelda.png"));
      [reflexivity | discriminate | reflexivity].
  - apply Habsent; [reflexivity | left; reflexivity].
  - apply (Hfailing eq_refl (lit "http://covers.example/zelda.png"));
      [reflexivity | discriminate | reflexivity].
Defined.

(** A download that ends in an exception takes the worker with it: for a
    non-empty [url], whatever the API key, the worker ends in the same
    exception right after the download's events.  Its one HTTP request is
    the one to [url], so the metadata API is not asked, and no signal is
    delivered, neither with the local path nor with the empty one.  Such an
    exception is never a [RequestException]. *)
Lemma worker_download_raises (w : World) (self : ImageFetcher)
    (key name u p : str) (e : exn) :
  u <> [] ->
  result (_try_download w (JStr u) p) = Raise e ->
  _worker w self key name (Some u) p =
    (Raise e, events (_try_download w (JStr u) p))
  /\ http_gets (events (_worker w self key name (Some u) p)) = [JStr u]
  /\ deliveries key (events (_worker w self key name (Some u) p)) = []
  /\ is_RequestException e = false.
Proof.
  intros Hu Hraise.
  assert (truthy (JStr u) = true) as Htruthy.
  { cbn. unfold str_eqb. rewrite bool_decide_eq_false_2; auto. }
  assert (_worker w self key name (Some u) p =
    (Raise e, events (_try_download w (JStr u) p))) as Hworker.
  { unfold _worker. rewrite Htruthy.
    destruct (_try_download w (JStr u) p) as [r t].
    cbn [result fst] in Hraise. subst r. reflexivity. }
  rewrite Hworker. cbn [events snd].
  repeat split.
  - apply try_download_http_gets.
  - apply silent_deliveries, try_download_silent.
  - apply (try_download_escape w (JStr u) p e Hraise).
Qed.

Lemma worker_download_raises_at_write_error :
  http_gets (events (_worker readonly_cache_world keyed_fetcher
     (lit "NES::Zelda") (lit "Zelda")
     (Some (lit "http://covers.example/zelda.png"))
     (lit "resources/covers/NES__Zelda.png")))
    = [JStr (lit "http://covers.example/zelda.png")].
Proof.
  apply (worker_download_raises readonly_cache_world keyed_fetcher
           (lit "NES::Zelda") (lit "Zelda")
           (lit "http://covers.example/zelda.png")
           (lit "resources/covers/NES__Zelda.png") permission_denied);
    [discriminate | reflexivity].
Defined.

(** C4 on the request of C1 and C2, with the API key empty: the cover's
    [url] is given, the server answers 200 with a body, and the temporary
    file cannot be opened for writing, so the download fails.  The order of
    the steps is kept: the worker's only HTTP request is the one to [url],
    and the metadata API is not asked.  But the failure is not reported:
    the [PermissionError] ends the worker after the attempt to open the
    file, and no [image_ready] is delivered for the key, where the claim
    has the empty path reported. *)
Theorem worker_failed_download_not_reported :
  let key := lit "NES::Zelda" in
  let url := lit "http://covers.example/zelda.png" in
  let path := lit "resources/covers/NES__Zelda.png" in
  let worker :=
    _worker readonly_cache_world sample_fetcher key (lit "Zelda") (Some url)
      path in
  api_key sample_fetcher = []
  /\ result (_try_download readonly_cache_world (JStr url) path)
     = Raise permission_denied
  /\ is_OSError permission_denied = true
  /\ worker =
       (Raise permission_denied,
        [EvHttpGet (JStr url) 10 true; EvOpenWb (path ++ lit ".tmp")])
  /\ http_gets (events worker) = [JStr url]
  /\ deliveries key (events worker) = []
  /\ ~ In (EvImageReady key []) (events worker).
Proof.
  cbv zeta. repeat split.
  intros [H | [H | []]]; discriminate H.
Qed.

(** C1 on a request the code can receive: the cover is not cached, the
    server answers 200 with a body, and the temporary file in the covers
    directory cannot be opened for writing.  [fetch] starts the worker, the
    worker dies of the [PermissionError], and no [image_ready] is ever
    delivered for the key. *)
Theorem fetch_request_lost_on_write_error :
  let key := lit "NES::Zelda" in
  let url := lit "http://covers.example/zelda.png" in
  let path := lit "resources/covers/NES__Zelda.png" in
  let request :=
    fetch readonly_cache_world sample_fetcher key (lit "Zelda") (Some url) in
  request =
    (Ret tt, [EvPathExists path;
              EvThreadStart (WorkerThread sample_fetcher key (lit "Zelda")
                               (Some url) path)])
  /\ to_completion readonly_cache_world request =
       [EvPathExists path;
        EvThreadStart (WorkerThread sample_fetcher key (lit "Zelda")
                         (Some url) path);
        EvHttpGet (JStr url) 10 true;
        EvOpenWb (path ++ lit ".tmp")]
  /\ deliveries key (to_completion readonly_cache_world request) = [].
Proof. repeat split. Qed.

(** C2 on the same request: the [PermissionError] raised by opening the
    temporary file is not a [RequestException]; it leaves [_try_download]
    and then [_worker], and no empty-path result is produced. *)
Theorem worker_dies_on_write_error :
  let key := lit "NES::Zelda" in
  let url := lit "http://covers.example/zelda.png" in
  let path := lit "resources/covers/NES__Zelda.png" in
  _try_download readonly_cache_world (JStr url) path =
    (Raise permission_denied,
     [EvHttpGet (JStr url) 10 true; EvOpenWb (path ++ lit ".tmp")])
  /\ _worker readonly_cache_world sample_fetcher key (lit "Zelda") (Some url)
       path =
     (Raise permission_denied,
      [EvHttpGet (JStr url) 10 true; EvOpenWb (path ++ lit ".tmp")]).
Proof. repeat split. Qed.

(** The same narrow [except] clause in [_try_fetch_from_rawg]: a JSON list
    from the metadata API has no [get], and the [AttributeError] leaves the
    worker before any signal. *)
Lemma worker_dies_on_unexpected_json :
  _worker unexpected_json_world keyed_fetcher (lit "NES::Zelda") (lit "Zelda")
    None (lit "resources/covers/NES__Zelda.png") =
  (Raise (Exn AttributeError (lit "object has no attribute 'get'")),
   [EvHttpGet
      (JStr (lit "https://api.rawg.io/api/games?search=Zelda&page_size=1&key=k"))
      8 false]).
Proof. reflexivity. Qed.

(** ** launcher.py: finding the emulator *)

Section FindEmulator.
Variable w : World.

Lemma startswith_nil (s : str) : startswith [] s = true.
Proof. destruct s; reflexivity. Qed.

Lemma str_in_nil (s : str) : str_in [] s = true.
Proof. destruct s; reflexivity. Qed.

Lemma lower_nil : lower w [] = [].
Proof. reflexivity. Qed.

(** With the empty console every name passes the substring test, and the
    loop returns the first regular file. *)
Lemma scan_empty_console (names : list str) :
  result (scan w [] names) =
    Ret (option_map (os_path_join em_dir)
           (List.find (fun name => w_isfile w (os_path_join em_dir name))
              names)).
Proof.
  induction names as [|name names IH]; [reflexivity|].
  cbn [scan List.find]. rewrite lower_nil, str_in_nil, result_bind.
  cbn [call result fst].
  destruct (w_isfile w (os_path_join em_dir name)); [reflexivity|exact IH].
Qed.

(** The loop finds nothing when no name that contains the console is a
    regular file. *)
Lemma scan_nothing (console : str) (names : list str) :
  Forall (fun name =>
    str_in (lower w console) (lower w name) = true ->
    w_isfile w (os_path_join em_dir name) = false) names ->
  result (scan w console names) = Ret None.
Proof.
  induction 1 as [|name names Hname _ IH]; [reflexivity|].
  cbn [scan]. destruct (str_in (lower w console) (lower w name));
    [|exact IH].
  rewrite result_bind. cbn [call result fst]. rewrite (Hname eq_refl).
  exact IH.
Qed.

(** The last step, once the first two have found nothing. *)
Lemma find_emulator_steps (c : Config) (console : str) :
  (forall em, configured c console = Some em ->
     em = [] \/ w_exists w em = false) ->
  result (find_emulator w c console) =
    match (if w_isdir w em_dir
           then match w_listdir w em_dir with
                | Ret names => result (scan w console names)
                | Raise e => Raise e
                end
           else Ret None) with
    | Ret (Some candidate) => Ret (Some candidate)
    | Ret None =>
        match w_listdir w em_dir with
        | Ret names =>
            match executables w names with
            | [exe] => Ret (Some exe)
            | _ => Ret None
            end
        | Raise e => if is_FileNotFoundError e then Ret None else Raise e
        end
    | Raise e => Raise e
    end.
Proof.
  intros Hcfg. unfold find_emulator. fold (configured c console).
  rewrite result_bind.
  assert (result (match configured c console with
                  | Some p =>
                      if truthy (JStr p)
                      then call (EvPathExists p) (Ret (w_exists w p))
                      else ret false
                  | None => ret false
                  end) = Ret false) as ->.
  { destruct (configured c console) as [em|]; [|reflexivity].
    destruct (Hcfg em eq_refl) as [-> | Hmissing]; [reflexivity|].
    destruct (truthy (JStr em)); [|reflexivity].
    cbn. rewrite Hmissing. reflexivity. }
  rewrite result_bind. cbn [call result fst]. rewrite result_bind.
  destruct (w_isdir w em_dir).
  - rewrite result_bind. cbn [call result fst].
    destruct (w_listdir w em_dir) as [names|e]; [|reflexivity].
    destruct (result (scan w console names)) as [[candidate|]|e];
      [reflexivity| |reflexivity].
    unfold executables, try_except. run.
    destruct (List.filter _ _) as [|exe [|exe' exes]]; reflexivity.
  - cbn [ret result fst]. unfold executables, try_except. run.
    destruct (w_listdir w em_dir) as [names|e].
    + destruct (List.filter _ _) as [|exe [|exe' exes]]; reflexivity.
    + destruct (is_FileNotFoundError e); reflexivity.
Qed.
End FindEmulator.

(** C6.  A configured path that exists wins over the directory: the result
    is that path and the only event is its existence check, so the
    emulators directory is not looked at.  A configured path that does not
    exist is skipped: after its existence check the search goes on as with
    no "emulators" entry.  And with no configured existing path and no
    emulators directory, the result is [None], not an exception. *)
Theorem find_emulator_prefers_configured (w : World) (c : Config)
    (console : str) :
  (forall em, configured c console = Some em -> em <> [] ->
     w_exists w em = true ->
     find_emulator w c console = (Ret (Some em), [EvPathExists em]))
  /\ (forall em, configured c console = Some em -> em <> [] ->
      w_exists w em = false ->
      find_emulator w c console =
        (result (find_emulator w (without_emulators c) console),
         EvPathExists em :: events (find_emulator w (without_emulators c)
                                      console)))
  /\ ((forall em, configured c console = Some em ->
         em = [] \/ w_exists w em = false) ->
      w_isdir w em_dir = false ->
      forall e, w_listdir w em_dir = Raise e ->
      is_FileNotFoundError e = true ->
      result (find_emulator w c console) = Ret None).
Proof.
  assert (forall u : str, u <> [] -> truthy (JStr u) = true) as Htruthy.
  { intros u Hu. cbn. unfold str_eqb. rewrite bool_decide_eq_false_2; auto. }
  split; [|split].
  - intros em Hcfg Hem Hexists. unfold find_emulator.
    fold (configured c console). rewrite Hcfg, (Htruthy em Hem).
    run. rewrite Hexists. reflexivity.
  - intros em Hcfg Hem Hmissing. unfold find_emulator.
    fold (configured c console). rewrite Hcfg, (Htruthy em Hem), Hmissing.
    cbn [without_emulators cfg_emulators default]. rewrite lookup_empty.
    rewrite bind_ret, bind_call_ret. reflexivity.
  - intros Hcfg Hdir e Hlist Hnotfound.
    rewrite (find_emulator_steps w c console Hcfg), Hdir, Hlist, Hnotfound.
    reflexivity.
Qed.

Lemma find_emulator_prefers_configured_witness :
  find_emulator emulators_world nes_config (lit "NES")
    = (Ret (Some (lit "emu/nestopia")), [EvPathExists (lit "emu/nestopia")])
  /\ find_emulator emulators_world default_config (lit "NES")
     = (Ret (Some (lit "emulators/Nestopia.exe")),
        [EvPathExists (lit "emulators/nestopia.exe");
         EvIsDir (lit "emulators"); EvListDir (lit "emulators");
         EvIsFile (lit "emulators/Nestopia.exe")])
  /\ result (find_emulator offline_world default_config (lit "NES"))
     = Ret None.
Proof.
  pose proof (find_emulator_prefers_configured emulators_world nes_config
                (lit "NES")) as (Hfirst & _ & _).
  pose proof (find_emulator_prefers_configured emulators_world
                default_config (lit "NES")) as (_ & Hskip & _).
  pose proof (find_emulator_prefers_configured offline_world default_config
                (lit "NES")) as (_ & _ & Habsent).
  split; [|split].
  - apply Hfirst; [reflexivity | discriminate | reflexivity].
  - rewrite (Hskip (lit "emulators/nestopia.exe"));
      [reflexivity | reflexivity | discriminate | reflexivity].
  - apply (Habsent (fun em _ => or_intror eq_refl) eq_refl no_such_file);
      reflexivity.
Defined.

(** C7.  When no configured existing path applies and the scan of the
    emulators directory for the console finds no regular file, the result
    is decided by the entries of the directory whose lower-cased path ends
    in ".exe": exactly one such entry is returned, whatever the console,
    and in every other case (none, several, or no directory to list) the
    result is [None]. *)
Theorem find_emulator_fallback (w : World) (c : Config) (console : str) :
  (forall em, configured c console = Some em ->
     em = [] \/ w_exists w em = false) ->
  (forall names, w_listdir w em_dir = Ret names ->
     (w_isdir w em_dir = true ->
      Forall (fun name =>
        str_in (lower w console) (lower w name) = true ->
        w_isfile w (os_path_join em_dir name) = false) names) ->
     (forall exe, executables w names = [exe] ->
        result (find_emulator w c console) = Ret (Some exe))
     /\ (length (executables w names) <> 1%nat ->
         result (find_emulator w c console) = Ret None))
  /\ (forall e, w_isdir w em_dir = false -> w_listdir w em_dir = Raise e ->
      is_FileNotFoundError e = true ->
      result (find_emulator w c console) = Ret None).
Proof.
  intros Hcfg. rewrite (find_emulator_steps w c console Hcfg). split.
  - intros names Hlist Hscan. rewrite Hlist.
    assert ((if w_isdir w em_dir then result (scan w console names)
             else Ret None) = Ret None) as ->.
    { destruct (w_isdir w em_dir); [|reflexivity].
      apply scan_nothing, Hscan. reflexivity. }
    split.
    + intros exe ->. reflexivity.
    + intros Hlen. destruct (executables w names) as [|exe [|exe' exes]];
        [reflexivity | contradiction | reflexivity].
  - intros e Hdir Hlist Hnotfound. rewrite Hdir, Hlist, Hnotfound.
    reflexivity.
Qed.

Lemma find_emulator_fallback_witness :
  result (find_emulator emulators_world default_config (lit "GBA"))
    = Ret (Some (lit "emulators/Nestopia.exe"))
  /\ result (find_emulator offline_world default_config (lit "GBA"))
     = Ret None.
Proof.
  assert (forall em, configured default_config (lit "GBA") = Some em ->
            em = [] \/ w_exists emulators_world em = false) as Hcfg.
  { intros em Hem. vm_compute in Hem. injection Hem as <-.
    right. reflexivity. }
  pose proof (find_emulator_fallback emulators_world default_config
                (lit "GBA") Hcfg) as (Hlisted & _).
  pose proof (find_emulator_fallback offline_world default_config
                (lit "GBA") (fun em _ => or_intror eq_refl)) as (_ & Habsent).
  split.
  - apply (Hlisted [lit "readme.txt"; lit "Nestopia.exe"] eq_refl);
      [|reflexivity].
    intros _. repeat constructor; discriminate.
  - apply (Habsent no_such_file); reflexivity.
Defined.

(** C10.  With the empty console string and no configured existing path for
    it, every name of the emulators directory passes the substring test,
    and the result is the first entry, in listing order, that is a regular
    file. *)
Theorem find_emulator_empty_console (w : World) (c : Config)
    (names : list str) (first : str) :
  (forall em, configured c [] = Some em ->
     em = [] \/ w_exists w em = false) ->
  w_isdir w em_dir = true ->
  w_listdir w em_dir = Ret names ->
  List.find (fun name => w_isfile w (os_path_join em_dir name)) names
    = Some first ->
  (forall name, str_in (lower w []) (lower w name) = true)
  /\ result (find_emulator w c []) = Ret (Some (os_path_join em_dir first)).
Proof.
  intros Hcfg Hdir Hlist Hfirst. split.
  - intros name. rewrite lower_nil. apply str_in_nil.
  - rewrite (find_emulator_steps w c [] Hcfg), Hdir, Hlist,
      scan_empty_console, Hfirst.
    reflexivity.
Qed.

Lemma find_emulator_empty_console_witness :
  result (find_emulator emulators_world default_config [])
    = Ret (Some (lit "emulators/readme.txt")).
Proof.
  apply (find_emulator_empty_console emulators_world default_config
           [lit "readme.txt"; lit "Nestopia.exe"] (lit "readme.txt")).
  - intros em Hem. vm_compute in Hem. discriminate.
  - reflexivity.
  - reflexivity.
  - reflexivity.
Defined.

(** ** launcher.py: launching *)

(** C8.  [launch_and_watch] checks the emulator path, then the ROM path,
    before it spawns anything.  A missing emulator ends the call with
    [None] after the "Emulator Missing" dialog, a missing ROM with [None]
    after the "ROM Missing" dialog, in both cases with no [Popen] and no
    watcher thread.  When both exist and [Popen] raises an [OSError], the
    call ends with [None] after a third, different dialog, "Launch Failed",
    whose text is the text of that error. *)
Theorem launch_failures (w : World) (emulator rom_path : str)
    (on_exit : option callback) (parent : option widget) :
  let launch := launch_and_watch w emulator rom_path on_exit parent in
  (w_exists w emulator = false ->
     result launch = Ret None
     /\ dialogs (events launch) =
          [(lit "Emulator Missing",
            lit "Emulator not found:" ++ [10%N] ++ emulator)]
     /\ spawned (to_completion w launch) = []
     /\ started (events launch) = [])
  /\ (w_exists w emulator = true -> w_exists w rom_path = false ->
      result launch = Ret None
      /\ dialogs (events launch) =
           [(lit "ROM Missing",
             lit "ROM file not found:" ++ [10%N] ++ rom_path)]
      /\ spawned (to_completion w launch) = []
      /\ started (events launch) = [])
  /\ (forall e, w_exists w emulator = true -> w_exists w rom_path = true ->
      w_popen w [emulator; rom_path] = Raise e -> is_OSError e = true ->
      result launch = Ret None
      /\ dialogs (events launch) = [(lit "Launch Failed", exn_str e)]
      /\ spawned (events launch) = [[emulator; rom_path]]
      /\ started (events launch) = [])
  /\ (lit "Emulator Missing" <> lit "ROM Missing"
      /\ lit "Emulator Missing" <> lit "Launch Failed"
      /\ lit "ROM Missing" <> lit "Launch Failed").
Proof.
  cbv zeta. unfold to_completion, launch_and_watch.
  split; [|split; [|split]].
  - intros Hem. run. rewrite Hem. auto.
  - intros Hem Hrom. run. rewrite Hem, Hrom. auto.
  - intros e Hem Hrom Hspawn Hos. run. rewrite Hem, Hrom, Hspawn, Hos. auto.
  - split; [|split]; discriminate.
Qed.

Lemma launch_failures_witness :
  dialogs (events (launch_and_watch offline_world
     (lit "emulators/Nestopia.exe") (lit "roms/NES/zelda.nes") None None))
    = [(lit "Emulator Missing",
        lit "Emulator not found:" ++ [10%N] ++ lit "emulators/Nestopia.exe")]
  /\ dialogs (events (launch_and_watch emulators_world
       (lit "emulators/Nestopia.exe") (lit "roms/NES/metroid.nes") None None))
     = [(lit "ROM Missing",
         lit "ROM file not found:" ++ [10%N] ++ lit "roms/NES/metroid.nes")]
  /\ dialogs (events (launch_and_watch broken_exe_world
       (lit "emulators/Nestopia.exe") (lit "roms/NES/zelda.nes") None None))
     = [(lit "Launch Failed", lit "Exec format error")].
Proof.
  pose proof (launch_failures offline_world (lit "emulators/Nestopia.exe")
                (lit "roms/NES/zelda.nes") None None) as (Hemulator & _).
  pose proof (launch_failures emulators_world (lit "emulators/Nestopia.exe")
                (lit "roms/NES/metroid.nes") None None) as (_ & Hrom & _).
  pose proof (launch_failures broken_exe_world (lit "emulators/Nestopia.exe")
                (lit "roms/NES/zelda.nes") None None) as (_ & _ & Hspawn & _).
  split; [|split].
  - apply Hemulator. reflexivity.
  - apply Hrom; reflexivity.
  - apply (Hspawn exec_format_error); reflexivity.
Defined.

(** C9.  When the emulator and the ROM exist and [Popen] succeeds,
    [launch_and_watch] returns the process after starting one watcher
    thread, and waits for nothing itself; the watcher waits for the
    process and calls [on_exit] once, with the code the wait returned. *)
Theorem launch_success (w : World) (emulator rom_path : str)
    (on_exit : callback) (parent : option widget) (p : proc) :
  w_exists w emulator = true ->
  w_exists w rom_path = true ->
  w_popen w [emulator; rom_path] = Ret p ->
  let launch := launch_and_watch w emulator rom_path (Some on_exit) parent in
  result launch = Ret (Some p)
  /\ waits (events launch) = []
  /\ spawned (events launch) = [[emulator; rom_path]]
  /\ started (events launch) = [WatcherThread p (Some on_exit)]
  /\ watcher w (Some on_exit) p =
       (Ret tt, [EvWait p; EvCall on_exit (w_wait w p)])
  /\ exit_calls on_exit (to_completion w launch) = [w_wait w p].
Proof.
  intros Hem Hrom Hspawn. cbv zeta.
  unfold to_completion, launch_and_watch, watcher.
  run. rewrite Hem, Hrom, Hspawn. cbn. rewrite N.eqb_refl. auto 10.
Qed.

Lemma launch_success_witness :
  exit_calls 1%N
    (to_completion emulators_world
       (launch_and_watch emulators_world (lit "emulators/Nestopia.exe")
          (lit "roms/NES/zelda.nes") (Some 1%N) None))
  = [3%Z].
Proof.
  apply (launch_success emulators_world (lit "emulators/Nestopia.exe")
           (lit "roms/NES/zelda.nes") 1%N None 4242%N); reflexivity.
Defined.

(** * Further facts about images.py *)

Section DownloadSteps.
Variable w : World.

Lemma try_except_ret {A} (body : M A) (catches : exn -> bool)
    (handler : exn -> M A) (a : A) :
  result body = Ret a -> try_except body catches handler = body.
Proof. destruct body as [[a'|e] t]; [reflexivity|discriminate]. Qed.

Lemma write_chunks_ok (p : str) (chunks : list bytes) (last : option exn) :
  result (write_chunks w p chunks last) = Ret tt <->
  Forall (fun c => w_write w p c = Ret tt) chunks /\ last = None.
Proof.
  induction chunks as [|c rest IH]; cbn [write_chunks].
  - destruct last; split; try discriminate; auto.
    intros [_ [=]].
  - rewrite result_bind. cbn [call result fst].
    destruct (w_write w p c) as [[]|e] eqn:Hw.
    + rewrite IH. split.
      * intros [Hrest ->]. auto.
      * intros [Hall ->]. inversion Hall; auto.
    + split; [discriminate|]. intros [Hall _]. inversion Hall; congruence.
Qed.

Lemma write_chunks_events (p : str) (chunks : list bytes) (last : option exn) :
  result (write_chunks w p chunks last) = Ret tt ->
  events (write_chunks w p chunks last) = map (EvWrite p) chunks.
Proof.
  induction chunks as [|c rest IH]; cbn [write_chunks].
  - destruct last; [discriminate|reflexivity].
  - rewrite result_bind, events_bind. cbn [call result events fst snd].
    destruct (w_write w p c) as [[]|e]; [|discriminate].
    intros Hrest. rewrite (IH Hrest). reflexivity.
Qed.

Lemma write_chunks_confined (p dest : str) (chunks : list bytes)
    (last : option exn) :
  forallb (confined p dest) (events (write_chunks w p chunks last)) = true.
Proof.
  induction chunks as [|c rest IH]; cbn [write_chunks].
  - destruct last; reflexivity.
  - rewrite events_bind. cbn [call result events fst snd].
    destruct (w_write w p c); cbn [forallb app confined];
      rewrite str_eqb_refl; [exact IH | reflexivity].
Qed.

Lemma try_except_true (body : M bool) (catches : exn -> bool)
    (handler : exn -> M bool) :
  (forall e, result (handler e) = Ret false) ->
  result (try_except body catches handler) = Ret true ->
  result body = Ret true.
Proof.
  intros Hh. unfold try_except. destruct body as [[b|e] t]; [auto|].
  destruct (catches e); [|discriminate].
  specialize (Hh e). destruct (handler e) as [r t'].
  cbn [result fst] in *. congruence.
Qed.

Lemma with_open_wb_result {A} (p : str) (body : M A) :
  result (with_open_wb w p body) =
    match w_open_wb w p with
    | Ret _ => match w_close w p with
               | Ret _ => result body
               | Raise e => Raise e
               end
    | Raise e => Raise e
    end.
Proof.
  unfold with_open_wb. rewrite result_bind. cbn [call result fst].
  destruct (w_open_wb w p); [|reflexivity].
  destruct body as [r t], (w_close w p); reflexivity.
Qed.

(** What a [True] from [_try_download] tells about the steps. *)
Lemma download_body_true (url : json) (p : str) :
  result (_try_download w url p) = Ret true ->
  exists response,
    w_get w url 10 true = Ret response
    /\ is_error_status response = false
    /\ w_open_wb w (p ++ lit ".tmp") = Ret tt
    /\ result (write_chunks w (p ++ lit ".tmp") (content_chunks response)
                 (stream_error response)) = Ret tt
    /\ w_close w (p ++ lit ".tmp") = Ret tt
    /\ w_replace w (p ++ lit ".tmp") p = Ret tt.
Proof.
  unfold _try_download. intros Htrue.
  apply try_except_true in Htrue; [|intros e; reflexivity].
  rewrite result_bind in Htrue. cbn [call result fst] in Htrue.
  destruct (w_get w url 10 true) as [response|e] eqn:Hget; [|discriminate].
  rewrite result_bind in Htrue. unfold raise_for_status in Htrue.
  fold (is_error_status response) in Htrue.
  destruct (is_error_status response) eqn:Hst; [discriminate|].
  cbn [ret result fst] in Htrue.
  rewrite result_bind, with_open_wb_result in Htrue.
  destruct (w_open_wb w (p ++ lit ".tmp")) as [[]|e] eqn:Hopen;
    [|discriminate].
  destruct (w_close w (p ++ lit ".tmp")) as [[]|e] eqn:Hclose;
    [|discriminate].
  destruct (result (write_chunks w _ _ _)) as [[]|e] eqn:Hwrite;
    [|discriminate].
  rewrite result_bind in Htrue. cbn [call result fst] in Htrue.
  destruct (w_replace w (p ++ lit ".tmp") p) as [[]|e] eqn:Hrepl;
    [|discriminate].
  exists response. auto 10.
Qed.

Lemma download_success (url : json) (p : str) (response : Response) :
  w_get w url 10 true = Ret response ->
  is_error_status response = false ->
  w_open_wb w (p ++ lit ".tmp") = Ret tt ->
  result (write_chunks w (p ++ lit ".tmp") (content_chunks response)
            (stream_error response)) = Ret tt ->
  w_close w (p ++ lit ".tmp") = Ret tt ->
  w_replace w (p ++ lit ".tmp") p = Ret tt ->
  _try_download w url p =
    (Ret true,
     [EvHttpGet url 10 true; EvOpenWb (p ++ lit ".tmp")] ++
     map (EvWrite (p ++ lit ".tmp")) (content_chunks response) ++
     [EvClose (p ++ lit ".tmp"); EvReplace (p ++ lit ".tmp") p]).
Proof.
  intros Hget Hstatus Hopen Hwrite Hclose Hreplace.
  pose proof (write_chunks_events _ _ _ Hwrite) as Hev.
  unfold _try_download, raise_for_status, with_open_wb.
  unfold is_error_status in Hstatus.
  rewrite Hget. run. rewrite Hstatus. run. rewrite Hopen. run.
  destruct (write_chunks w _ _ _) as [r t]. cbn [result events fst snd] in *.
  subst r t. rewrite Hclose. run. rewrite Hreplace. run.
  rewrite <- !app_assoc. reflexivity.
Qed.
End DownloadSteps.

(** X1. [_try_download] answers [True] exactly when every step went
    through: the GET answered with a status outside 400..599, the temporary
    file was opened, every chunk was written, the stream ended without an
    error, the file was closed and then renamed onto the destination.  Its
    events are then exactly these steps, in this order. *)
Theorem try_download_true_iff_all_steps (w : World) (url : json) (p : str) :
  (result (_try_download w url p) = Ret true <->
   exists response,
     w_get w url 10 true = Ret response
     /\ is_error_status response = false
     /\ w_open_wb w (p ++ lit ".tmp") = Ret tt
     /\ Forall (fun c => w_write w (p ++ lit ".tmp") c = Ret tt)
          (content_chunks response)
     /\ stream_error response = None
     /\ w_close w (p ++ lit ".tmp") = Ret tt
     /\ w_replace w (p ++ lit ".tmp") p = Ret tt)
  /\ (result (_try_download w url p) = Ret true ->
      exists response,
        w_get w url 10 true = Ret response /\
        events (_try_download w url p) =
          [EvHttpGet url 10 true; EvOpenWb (p ++ lit ".tmp")] ++
          map (EvWrite (p ++ lit ".tmp")) (content_chunks response) ++
          [EvClose (p ++ lit ".tmp"); EvReplace (p ++ lit ".tmp") p]).
Proof.
  split; [split|].
  - intros Htrue.
    destruct (download_body_true w url p Htrue)
      as (response & Hget & Hst & Hopen & Hwrite & Hclose & Hrepl).
    apply write_chunks_ok in Hwrite as [Hall Hend].
    exists response. auto 10.
  - intros (response & Hget & Hst & Hopen & Hall & Hend & Hclose & Hrepl).
    rewrite (download_success w url p response); auto.
    apply write_chunks_ok. auto.
  - intros Htrue.
    destruct (download_body_true w url p Htrue)
      as (response & Hget & Hst & Hopen & Hwrite & Hclose & Hrepl).
    exists response. split; [exact Hget|].
    rewrite (download_success w url p response); auto.
Qed.

Lemma try_download_true_iff_all_steps_witness :
  events (_try_download online_world
            (JStr (lit "http://covers.example/zelda.png"))
            (lit "resources/covers/NES__Zelda.png"))
  = [EvHttpGet (JStr (lit "http://covers.example/zelda.png")) 10 true;
     EvOpenWb (lit "resources/covers/NES__Zelda.png.tmp");
     EvWrite (lit "resources/covers/NES__Zelda.png.tmp")
       [Byte.x89; Byte.x50; Byte.x4e; Byte.x47];
     EvClose (lit "resources/covers/NES__Zelda.png.tmp");
     EvReplace (lit "resources/covers/NES__Zelda.png.tmp")
       (lit "resources/covers/NES__Zelda.png")].
Proof.
  destruct (try_download_true_iff_all_steps online_world
              (JStr (lit "http://covers.example/zelda.png"))
              (lit "resources/covers/NES__Zelda.png")) as [_ Hevents].
  destruct (Hevents eq_refl) as (response & Hget & ->).
  injection Hget as <-. reflexivity.
Defined.

Lemma forallb_events_bind {A B} (P : event -> bool) (m : M A)
    (f : A -> M B) :
  forallb P (events m) = true ->
  (forall a, forallb P (events (f a)) = true) ->
  forallb P (events (bind m f)) = true.
Proof.
  intros Hm Hf. rewrite events_bind. destruct (result m) as [a|e]; [|exact Hm].
  rewrite forallb_app, Hm. apply Hf.
Qed.

Lemma forallb_events_try_except {A} (P : event -> bool) (body : M A)
    (catches : exn -> bool) (handler : exn -> M A) :
  forallb P (events body) = true ->
  (forall e, forallb P (events (handler e)) = true) ->
  forallb P (events (try_except body catches handler)) = true.
Proof.
  intros Hb Hh. unfold try_except. destruct body as [[a|e] t]; [exact Hb|].
  destruct (catches e); [|exact Hb]. specialize (Hh e).
  destruct (handler e) as [r t']. cbn [events snd] in *.
  rewrite forallb_app, Hb. exact Hh.
Qed.

(** X2. whatever happens, the file events of [_try_download] concern the
    temporary file only, and the destination is touched by nothing but the
    renaming of the temporary file onto it. *)
Theorem try_download_writes_only_the_temporary_file (w : World) (url : json)
    (p : str) :
  forallb (confined (p ++ lit ".tmp") p) (events (_try_download w url p))
    = true.
Proof.
  unfold _try_download.
  apply forallb_events_try_except; [|intros e; reflexivity].
  apply forallb_events_bind; [reflexivity|]. intros response.
  apply forallb_events_bind.
  { unfold raise_for_status. destruct (_ && _); reflexivity. }
  intros _. apply forallb_events_bind.
  - unfold with_open_wb. apply forallb_events_bind.
    + cbn. rewrite str_eqb_refl. reflexivity.
    + intros _.
      pose proof (write_chunks_confined w (p ++ lit ".tmp") p
                    (content_chunks response) (stream_error response)) as Hw.
      destruct (write_chunks w _ _ _) as [r t]. cbn [events snd] in Hw.
      destruct (w_close w (p ++ lit ".tmp")); cbn [events snd];
        rewrite forallb_app, Hw; cbn; rewrite str_eqb_refl; reflexivity.
  - intros _. apply forallb_events_bind; [|reflexivity].
    cbn. rewrite !str_eqb_refl. reflexivity.
Qed.

(** X3. one [fetch] request, with the worker it may start run to its end,
    delivers [image_ready] for its key at most once, with the cache path or
    the empty path; it delivers nothing only when the worker died of an
    exception that is not a [RequestException].  It never delivers for
    another key, and [fetch] itself requests nothing over HTTP. *)
Theorem fetch_delivers_at_most_once (w : World) (self : ImageFetcher)
    (key name : str) (url : option str) :
  let all := to_completion w (fetch w self key name url) in
  let p := _local_path_for w self key in
  (deliveries key all = [p] \/ deliveries key all = [[]] \/
   (deliveries key all = [] /\
    exists e, result (_worker w self key name url p) = Raise e /\
              is_RequestException e = false))
  /\ (forall other, other <> key -> deliveries other all = [])
  /\ http_gets (events (fetch w self key name url)) = [].
Proof.
  cbv zeta. unfold to_completion, fetch. rewrite bind_call_ret.
  assert (forall other, other <> key -> str_eqb key other = false) as Hne.
  { intros other Hother. apply bool_decide_eq_false_2. congruence. }
  destruct (w_exists w (_local_path_for w self key)).
  - cbn. rewrite str_eqb_refl. repeat split; auto.
    intros other Hother. rewrite (Hne other Hother). reflexivity.
  - cbn [log result events fst snd started flat_map app run_thread].
    rewrite app_nil_r.
    change (?a :: ?b :: ?t) with ([a; b] ++ t).
    split; [|split; [|reflexivity]].
    + rewrite deliveries_app. cbn [deliveries flat_map app].
      destruct (worker_outcome w self key name url (_local_path_for w self key))
        as [(_ & t & path & -> & Hsilent & Hpath) | (e & He & Hreq & Hsilent)].
      * rewrite deliveries_app, (silent_deliveries key t Hsilent). cbn.
        rewrite str_eqb_refl. destruct Hpath as [-> | ->]; auto.
      * right. right. rewrite (silent_deliveries key _ Hsilent). eauto.
    + intros other Hother. rewrite deliveries_app. cbn [deliveries flat_map app].
      destruct (worker_outcome w self key name url (_local_path_for w self key))
        as [(_ & t & path & -> & Hsilent & Hpath) | (e & He & Hreq & Hsilent)].
      * rewrite deliveries_app, (silent_deliveries other t Hsilent). cbn.
        rewrite (Hne other Hother). reflexivity.
      * apply silent_deliveries, Hsilent.
Qed.

(** X4. a worker that returns has delivered [image_ready] for its key
    exactly once, as its last event, with the local path or the empty path;
    a worker that does not return has delivered nothing and was ended by an
    exception that is not a [RequestException]. *)
Theorem worker_signals_once_or_dies (w : World) (self : ImageFetcher)
    (key name : str) (url : option str) (p : str) :
  (result (_worker w self key name url p) = Ret tt ->
   (deliveries key (events (_worker w self key name url p)) = [p] \/
    deliveries key (events (_worker w self key name url p)) = [[]])
   /\ exists t path,
        events (_worker w self key name url p) = t ++ [EvImageReady key path])
  /\ (forall e, result (_worker w self key name url p) = Raise e ->
      deliveries key (events (_worker w self key name url p)) = []
      /\ is_RequestException e = false).
Proof.
  destruct (worker_outcome w self key name url p)
    as [(Hret & t & path & Hev & Hsilent & Hpath) | (e & He & Hreq & Hsilent)].
  - split; [|intros e He; congruence]. intros _. split; [|eauto].
    rewrite Hev, deliveries_app, (silent_deliveries key t Hsilent). cbn.
    rewrite str_eqb_refl. destruct Hpath as [-> | ->]; auto.
  - split; [intros Hret; congruence|]. intros e' He'.
    rewrite (silent_deliveries key _ Hsilent). split; congruence.
Qed.

Lemma worker_signals_once_or_dies_witness :
  deliveries (lit "NES::Zelda")
    (events (_worker readonly_cache_world sample_fetcher (lit "NES::Zelda")
               (lit "Zelda") (Some (lit "http://covers.example/zelda.png"))
               (lit "resources/covers/NES__Zelda.png"))) = []
  /\ (deliveries (lit "NES::Zelda")
        (events (_worker offline_world sample_fetcher (lit "NES::Zelda")
                   (lit "Zelda") (Some (lit "http://covers.example/zelda.png"))
                   (lit "resources/covers/NES__Zelda.png")))
        = [lit "resources/covers/NES__Zelda.png"]
      \/ deliveries (lit "NES::Zelda")
           (events (_worker offline_world sample_fetcher (lit "NES::Zelda")
                      (lit "Zelda")
                      (Some (lit "http://covers.example/zelda.png"))
                      (lit "resources/covers/NES__Zelda.png")))
         = [[]]).
Proof.
  split.
  - apply (proj2 (worker_signals_once_or_dies readonly_cache_world
                    sample_fetcher (lit "NES::Zelda") (lit "Zelda")
                    (Some (lit "http://covers.example/zelda.png"))
                    (lit "resources/covers/NES__Zelda.png"))
             permission_denied eq_refl).
  - apply (proj1 (worker_signals_once_or_dies offline_world
                    sample_fetcher (lit "NES::Zelda") (lit "Zelda")
                    (Some (lit "http://covers.example/zelda.png"))
                    (lit "resources/covers/NES__Zelda.png")) eq_refl).
Defined.

(** ** The metadata API step *)

Ltac step :=
  cbn [bind call log ret raise pure try_except result events fst snd app
       py_get py_index0 py_getitem truthy default from_option id negb].

Ltac rawg_steps Hquote Hget Hst Hjson :=
  unfold _try_fetch_from_rawg, raise_for_status;
  unfold rawg_search_url, is_error_status in *;
  rewrite Hquote; step; rewrite Hget; step; rewrite Hst; step;
  rewrite Hjson; step.

Section Rawg.
Variable w : World.

(** What the API step does with an answer that names an image. *)
Lemma rawg_with_image (self : ImageFetcher) (name p query : str)
    (response : Response) (kv kv1 : list (str * json)) (rest : list json)
    (image : json) :
  w_quote_plus w name = Ret query ->
  w_get w (JStr (rawg_search_url query (api_key self))) 8 false
    = Ret response ->
  is_error_status response = false ->
  json_result response = Ret (JDict kv) ->
  assoc (lit "results") kv = Some (JList (JDict kv1 :: rest)) ->
  assoc (lit "background_image") kv1 = Some image ->
  truthy image = true ->
  _try_fetch_from_rawg w self name p =
    (result (_try_download w image p),
     EvHttpGet (JStr (rawg_search_url query (api_key self))) 8 false
       :: events (_try_download w image p)).
Proof.
  intros Hquote Hget Hst Hjson Hresults Himage Htruthy.
  pose proof (try_download_escape w image p) as Hescape.
  rawg_steps Hquote Hget Hst Hjson.
  rewrite Hresults. step. rewrite Himage. step. rewrite Htruthy. step.
  destruct (_try_download w image p) as [[r|e] t]; step.
  - rewrite !app_nil_r. reflexivity.
  - rewrite (Hescape e eq_refl). reflexivity.
Qed.
End Rawg.

(** X5. when the metadata API answers with a JSON object that names no
    image (no "results", a null or empty "results", or a first result
    whose "background_image" is missing, null or empty),
    [_try_fetch_from_rawg] answers [False] after its single request: it
    downloads nothing and touches no file. *)
Theorem rawg_without_image_downloads_nothing (w : World)
    (self : ImageFetcher) (name p query : str) (response : Response)
    (kv : list (str * json)) :
  w_quote_plus w name = Ret query ->
  w_get w (JStr (rawg_search_url query (api_key self))) 8 false
    = Ret response ->
  is_error_status response = false ->
  json_result response = Ret (JDict kv) ->
  (assoc (lit "results") kv = None
   \/ assoc (lit "results") kv = Some JNull
   \/ assoc (lit "results") kv = Some (JList [])
   \/ exists kv1 rest,
        assoc (lit "results") kv = Some (JList (JDict kv1 :: rest))
        /\ truthy (default JNull (assoc (lit "background_image") kv1))
           = false) ->
  _try_fetch_from_rawg w self name p =
    (Ret false,
     [EvHttpGet (JStr (rawg_search_url query (api_key self))) 8 false]).
Proof.
  intros Hquote Hget Hst Hjson Hnone.
  rawg_steps Hquote Hget Hst Hjson.
  destruct Hnone as [-> | [-> | [-> | (kv1 & rest & -> & Hfalse)]]];
    step; try reflexivity.
  rewrite Hfalse. reflexivity.
Qed.

Lemma rawg_without_image_downloads_nothing_witness :
  _try_fetch_from_rawg online_world keyed_fetcher (lit "Zelda")
    (lit "resources/covers/NES__Zelda.png")
  = (Ret false,
     [EvHttpGet (JStr (rawg_search_url (lit "Zelda") (lit "k"))) 8 false]).
Proof.
  apply (rawg_without_image_downloads_nothing online_world keyed_fetcher
           (lit "Zelda") (lit "resources/covers/NES__Zelda.png") (lit "Zelda")
           sample_response [(lit "results", JList [])]);
    try reflexivity.
  right. right. left. reflexivity.
Defined.

(** X6. when there is no direct URL, an API key is set, and the metadata
    API names an image for the game, the worker requests the search URL
    (escaped name, page size 1, the key), then downloads that image as it
    would a direct URL; if the download answers [True], the worker delivers
    the local path.  The API step as a whole answers what the download
    answers. *)
Theorem worker_downloads_the_image_the_api_names (w : World)
    (self : ImageFetcher) (key name p query : str) (response : Response)
    (kv kv1 : list (str * json)) (rest : list json) (image : json) :
  api_key self <> [] ->
  w_quote_plus w name = Ret query ->
  w_get w (JStr (rawg_search_url query (api_key self))) 8 false
    = Ret response ->
  is_error_status response = false ->
  json_result response = Ret (JDict kv) ->
  assoc (lit "results") kv = Some (JList (JDict kv1 :: rest)) ->
  assoc (lit "background_image") kv1 = Some image ->
  truthy image = true ->
  _try_fetch_from_rawg w self name p =
    (result (_try_download w image p),
     EvHttpGet (JStr (rawg_search_url query (api_key self))) 8 false
       :: events (_try_download w image p))
  /\ (result (_try_download w image p) = Ret true ->
      _worker w self key name None p =
        (Ret tt,
         EvHttpGet (JStr (rawg_search_url query (api_key self))) 8 false
           :: events (_try_download w image p) ++ [EvImageReady key p])).
Proof.
  intros Hkey Hquote Hget Hst Hjson Hresults Himage Htruthy.
  pose proof (rawg_with_image w self name p query response kv kv1 rest image
                Hquote Hget Hst Hjson Hresults Himage Htruthy) as Hrawg.
  split; [exact Hrawg|]. intros Hok. unfold _worker.
  assert (truthy (JStr (api_key self)) = true) as ->.
  { cbn. unfold str_eqb. rewrite bool_decide_eq_false_2; auto. }
  rewrite bind_ret, Hrawg, Hok. reflexivity.
Qed.

Lemma worker_downloads_the_image_the_api_names_witness :
  _worker rawg_hit_world keyed_fetcher (lit "NES::Zelda") (lit "Zelda") None
    (lit "resources/covers/NES__Zelda.png")
  = (Ret tt,
     EvHttpGet (JStr (rawg_search_url (lit "Zelda") (lit "k"))) 8 false
       :: events (_try_download rawg_hit_world
                    (JStr (lit "http://media.example/z.jpg"))
                    (lit "resources/covers/NES__Zelda.png"))
       ++ [EvImageReady (lit "NES::Zelda")
             (lit "resources/covers/NES__Zelda.png")]).
Proof.
  apply (worker_downloads_the_image_the_api_names rawg_hit_world
           keyed_fetcher (lit "NES::Zelda") (lit "Zelda")
           (lit "resources/covers/NES__Zelda.png") (lit "Zelda")
           rawg_hit_response
           [(lit "count", JNum 1);
            (lit "results",
             JList [JDict [(lit "name", JStr (lit "Zelda"));
                           (lit "background_image",
                            JStr (lit "http://media.example/z.jpg"))]])]
           [(lit "name", JStr (lit "Zelda"));
            (lit "background_image", JStr (lit "http://media.example/z.jpg"))]
           [] (JStr (lit "http://media.example/z.jpg")));
    try reflexivity.
  discriminate.
Defined.

(** ** The cache file name *)

Section FileName.
Variable w : World.

Lemma keeps_underscore : keeps w 95 = true.
Proof. reflexivity. Qed.

Lemma keeps_not_slash : keeps w 47 = false.
Proof. reflexivity. Qed.

Lemma safe_key_kept (key : str) :
  Forall (fun c => keeps w c = true) (safe_key w key).
Proof.
  induction key as [|c key IH]; constructor; [|exact IH].
  destruct (keeps w c) eqn:Hc; [exact Hc | apply keeps_underscore].
Qed.

Lemma safe_key_fixed (s : str) :
  Forall (fun c => keeps w c = true) s -> safe_key w s = s.
Proof.
  induction 1 as [|c s Hc _ IH]; [reflexivity|].
  cbn [safe_key map]. rewrite Hc. f_equal. exact IH.
Qed.

Lemma local_path_for_safe_key (self : ImageFetcher) (key : str) :
  _local_path_for w self key =
    covers_dir self ++ join_separator (covers_dir self) ++
    safe_key w key ++ lit ".png".
Proof.
  destruct (local_path_for_sanitizes w self key) as [-> _].
  fold (safe_key w key). unfold os_path_join, join_separator.
  assert (startswith (lit "/") (safe_key w key ++ lit ".png") = false) as ->.
  { pose proof (safe_key_kept key) as Hkept.
    destruct (safe_key w key) as [|c s]; [reflexivity|].
    inversion Hkept as [|? ? Hc _]; subst.
    change (lit "/") with [47%N]. cbn [app startswith].
    destruct (N.eqb_spec 47 c) as [<-|_]; [|reflexivity].
    rewrite keeps_not_slash in Hc. discriminate. }
  destruct (str_eqb (covers_dir self) [] || endswith (lit "/") (covers_dir self));
    reflexivity.
Qed.
End FileName.

(** X7. the cache path is the covers directory, the separator
    [os.path.join] adds, and a file name as long as the key plus ".png"
    whose characters are all alphanumeric or one of '_', '-', '.': the file
    name holds no '/', so the path never leaves the covers directory. *)
Theorem cache_file_stays_in_covers_dir (w : World) (self : ImageFetcher)
    (key : str) :
  exists name,
    _local_path_for w self key =
      covers_dir self ++ join_separator (covers_dir self) ++ name
    /\ length name = (length key + 4)%nat
    /\ Forall (fun c => keeps w c = true) name
    /\ ~ In 47%N name.
Proof.
  exists (safe_key w key ++ lit ".png").
  assert (Forall (fun c => keeps w c = true) (safe_key w key ++ lit ".png"))
    as Hkept.
  { apply Forall_app. split; [apply safe_key_kept|].
    repeat constructor. }
  split; [apply local_path_for_safe_key|]. split; [|split; [exact Hkept|]].
  - rewrite length_app. unfold safe_key. rewrite length_map. reflexivity.
  - intros Hin. rewrite Forall_forall in Hkept.
    rewrite <- list_elem_of_In in Hin.
    specialize (Hkept _ Hin). rewrite keeps_not_slash in Hkept. discriminate.
Qed.

(** X8. two keys share a cache file exactly when they agree after
    sanitizing; in particular a key and its sanitized form always do. *)
Theorem cache_paths_collide_iff_safe_keys_agree (w : World)
    (self : ImageFetcher) (key1 key2 : str) :
  (_local_path_for w self key1 = _local_path_for w self key2 <->
   safe_key w key1 = safe_key w key2)
  /\ _local_path_for w self (safe_key w key1) = _local_path_for w self key1.
Proof.
  rewrite !local_path_for_safe_key. split; [split|].
  - intros Heq. do 2 apply app_inv_head in Heq.
    apply app_inv_tail in Heq. exact Heq.
  - intros ->. reflexivity.
  - rewrite (safe_key_fixed w _ (safe_key_kept w key1)). reflexivity.
Qed.

Lemma lstrip_blank (s : str) : forallb isspace s = true -> lstrip s = [].
Proof.
  induction s as [|c s IH]; [reflexivity|]. cbn [forallb lstrip].
  intros [Hc Hs]%andb_prop. rewrite Hc. auto.
Qed.

Lemma strip_blank (s : str) : forallb isspace s = true -> strip s = [].
Proof. intros Hs. unfold strip. rewrite (lstrip_blank s Hs). reflexivity. Qed.

(** X9. a fetcher built from a configuration whose "rawg_api_key" is
    missing or consists of white space only has no API key, and its worker
    reports failure for a game without a URL with no request at all. *)
Theorem blank_api_key_disables_the_api (w : World) (c : Config)
    (self : ImageFetcher) :
  result (ImageFetcher_init w c) = Ret self ->
  (cfg_rawg_api_key c = None \/
   exists s, cfg_rawg_api_key c = Some s /\ forallb isspace s = true) ->
  api_key self = []
  /\ forall key name p,
       _worker w self key name None p = (Ret tt, [EvImageReady key []]).
Proof.
  intros Hinit Hblank.
  assert (api_key self = []) as Hkey.
  { revert Hinit. unfold ImageFetcher_init. rewrite result_bind.
    cbn [call result fst]. destruct (w_makedirs w _); [|discriminate].
    intros [= <-]. cbn [api_key].
    destruct Hblank as [-> | (s & -> & Hs)]; [reflexivity|].
    apply strip_blank, Hs. }
  split; [exact Hkey|]. intros key name p. unfold _worker. rewrite Hkey.
  reflexivity.
Qed.

Lemma blank_api_key_disables_the_api_witness :
  _worker online_world
    {| cfg := {| cfg_covers_dir := None;
                 cfg_rawg_api_key := Some (lit " 	 ");
                 cfg_emulators := None |};
       covers_dir := lit "resources/covers";
       api_key := [] |}
    (lit "NES::Zelda") (lit "Zelda") None
    (lit "resources/covers/NES__Zelda.png")
  = (Ret tt, [EvImageReady (lit "NES::Zelda") []]).
Proof.
  apply (blank_api_key_disables_the_api online_world
           {| cfg_covers_dir := None;
              cfg_rawg_api_key := Some (lit " 	 ");
              cfg_emulators := None |}).
  - reflexivity.
  - right. eexists. split; reflexivity.
Defined.

(** * Further facts about launcher.py *)

Lemma scan_first_match (w : World) (console : str) (names : list str) :
  result (scan w console names) =
    Ret (option_map (os_path_join em_dir)
           (List.find (fun name =>
              str_in (lower w console) (lower w name) &&
              w_isfile w (os_path_join em_dir name)) names)).
Proof.
  induction names as [|name names IH]; [reflexivity|].
  cbn [scan List.find].
  destruct (str_in (lower w console) (lower w name)); cbn [andb]; [|exact IH].
  rewrite result_bind. cbn [call result fst].
  destruct (w_isfile w (os_path_join em_dir name)); [reflexivity|exact IH].
Qed.

(** X10. the scan loop never raises and answers the first entry, in
    listing order, whose lower-cased name contains the lower-cased console
    and that is a regular file in the emulators directory; entries that do
    not contain the console are not even looked at on disk. *)
Theorem scan_returns_first_match (w : World) (console : str)
    (names : list str) :
  result (scan w console names) =
    Ret (option_map (os_path_join em_dir)
           (List.find (fun name =>
              str_in (lower w console) (lower w name) &&
              w_isfile w (os_path_join em_dir name)) names))
  /\ Forall (fun ev =>
       exists name, ev = EvIsFile (os_path_join em_dir name)
                    /\ In name names
                    /\ str_in (lower w console) (lower w name) = true)
       (events (scan w console names)).
Proof.
  induction names as [|name names [IHr IHe]]; [split; [reflexivity|constructor]|].
  cbn [scan List.find].
  destruct (str_in (lower w console) (lower w name)) eqn:Hin; cbn [andb].
  - rewrite result_bind, events_bind. cbn [call result events fst snd].
    destruct (w_isfile w (os_path_join em_dir name)); split;
      try reflexivity; try exact IHr.
    + repeat constructor. exists name. cbn. auto.
    + constructor; [exists name; cbn; auto|].
      eapply Forall_impl; [exact IHe|].
      intros ev (n & -> & Hn & Hmatch). exists n. cbn. auto.
  - split; [exact IHr|]. eapply Forall_impl; [exact IHe|].
    intros ev (n & -> & Hn & Hmatch). exists n. cbn. auto.
Qed.

Section FindEmulatorOutcome.
Variable w : World.

Lemma configured_hit (c : Config) (console em : str) :
  configured c console = Some em -> em <> [] -> w_exists w em = true ->
  find_emulator w c console = (Ret (Some em), [EvPathExists em]).
Proof.
  intros Hcfg Hem Hexists. unfold find_emulator.
  fold (configured c console). rewrite Hcfg.
  assert (truthy (JStr em) = true) as ->.
  { cbn. unfold str_eqb. rewrite bool_decide_eq_false_2; auto. }
  run. rewrite Hexists. reflexivity.
Qed.

(** Either the configured path is used, or it does not apply. *)
Lemma configured_or_not (c : Config) (console : str) :
  (exists em, configured c console = Some em /\ em <> [] /\
              w_exists w em = true)
  \/ (forall em, configured c console = Some em ->
        em = [] \/ w_exists w em = false).
Proof.
  destruct (configured c console) as [em|]; [|right; discriminate].
  destruct em as [|ch em]; [right; intros ? [= <-]; auto|].
  destruct (w_exists w (ch :: em)) eqn:Hexists.
  - left. exists (ch :: em). auto.
  - right. intros ? [= <-]. auto.
Qed.

Lemma executables_single (names : list str) (exe : str) :
  executables w names = [exe] ->
  exists name, In name names /\ exe = os_path_join em_dir name
               /\ endswith (lit ".exe") (lower w exe) = true.
Proof.
  intros Hexes.
  assert (In exe (executables w names)) as Hin by (rewrite Hexes; left; auto).
  unfold executables in Hin. apply filter_In in Hin as [Hin Hexe].
  apply in_map_iff in Hin as (name & <- & Hname). eauto.
Qed.
End FindEmulatorOutcome.

(** X11. whatever [find_emulator] returns is either the configured path,
    which then exists, or an entry of the emulators directory: one whose
    name contains the console and that is a regular file, or one whose
    lower-cased path ends in ".exe". *)
Theorem find_emulator_result_origin (w : World) (c : Config)
    (console p : str) :
  result (find_emulator w c console) = Ret (Some p) ->
  (configured c console = Some p /\ p <> [] /\ w_exists w p = true)
  \/ exists names name,
       w_listdir w em_dir = Ret names /\ In name names
       /\ p = os_path_join em_dir name
       /\ ((str_in (lower w console) (lower w name) = true
            /\ w_isfile w p = true)
           \/ endswith (lit ".exe") (lower w p) = true).
Proof.
  destruct (configured_or_not w c console)
    as [(em & Hcfg & Hem & Hexists) | Hnone].
  - rewrite (configured_hit w c console em Hcfg Hem Hexists).
    intros [= <-]. auto.
  - rewrite (find_emulator_steps w c console Hnone). intros Hres. right.
    destruct (w_listdir w em_dir) as [names|e] eqn:Hlist.
    + exists names.
      assert (forall exe, executables w names = [exe] ->
                exists name, In name names /\ exe = os_path_join em_dir name
                  /\ endswith (lit ".exe") (lower w exe) = true)
        as Hfallback by apply executables_single.
      pose proof (scan_first_match w console names) as Hscan.
      destruct (w_isdir w em_dir).
      * rewrite Hscan in Hres.
        destruct (List.find _ names) as [name|] eqn:Hfind; cbn in Hres.
        -- apply find_some in Hfind as [Hin [Hmatch Hfile]%andb_prop].
           injection Hres as <-. exists name. auto 10.
        -- destruct (executables w names) as [|exe [|]] eqn:Hexes;
             try discriminate.
           injection Hres as <-.
           destruct (Hfallback exe eq_refl) as (name & Hin & Heq & Hexe).
           exists name. auto 10.
      * destruct (executables w names) as [|exe [|]] eqn:Hexes;
          try discriminate.
        injection Hres as <-.
        destruct (Hfallback exe eq_refl) as (name & Hin & Heq & Hexe).
        exists name. auto 10.
    + destruct (w_isdir w em_dir); [discriminate|].
      destruct (is_FileNotFoundError e); discriminate.
Qed.

Lemma find_emulator_result_origin_witness :
  (configured default_config (lit "GBA") = Some (lit "emulators/Nestopia.exe")
   /\ lit "emulators/Nestopia.exe" <> []
   /\ w_exists emulators_world (lit "emulators/Nestopia.exe") = true)
  \/ exists names name,
       w_listdir emulators_world em_dir = Ret names /\ In name names
       /\ lit "emulators/Nestopia.exe" = os_path_join em_dir name
       /\ ((str_in (lower emulators_world (lit "GBA"))
              (lower emulators_world name) = true
            /\ w_isfile emulators_world (lit "emulators/Nestopia.exe") = true)
           \/ endswith (lit ".exe")
                (lower emulators_world (lit "emulators/Nestopia.exe")) = true).
Proof.
  apply (find_emulator_result_origin emulators_world default_config
           (lit "GBA") (lit "emulators/Nestopia.exe")).
  reflexivity.
Defined.

(** X12. [find_emulator] raises exactly when no configured existing path
    applies and listing the emulators directory raises: in the scan (the
    directory test succeeded) any exception, in the last step any exception
    but [FileNotFoundError].  With a configured existing path it never
    raises. *)
Theorem find_emulator_raises_iff (w : World) (c : Config) (console : str)
    (e : exn) :
  result (find_emulator w c console) = Raise e <->
  (forall em, configured c console = Some em ->
     em = [] \/ w_exists w em = false)
  /\ w_listdir w em_dir = Raise e
  /\ (w_isdir w em_dir = true \/ is_FileNotFoundError e = false).
Proof.
  destruct (configured_or_not w c console)
    as [(em & Hcfg & Hem & Hexists) | Hnone].
  - rewrite (configured_hit w c console em Hcfg Hem Hexists). split.
    + discriminate.
    + intros [Hno _]. destruct (Hno em Hcfg); congruence.
  - rewrite (find_emulator_steps w c console Hnone).
    destruct (w_listdir w em_dir) as [names|e0] eqn:Hlist.
    + split.
      * destruct (w_isdir w em_dir).
        -- rewrite (scan_first_match w console names).
           destruct (List.find _ names); cbn; [discriminate|].
           destruct (executables w names) as [|? [|]]; discriminate.
        -- destruct (executables w names) as [|? [|]]; discriminate.
      * intros (_ & [=] & _).
    + destruct (w_isdir w em_dir).
      * split; [intros [= ->]; auto | intros (_ & [= ->] & _); reflexivity].
      * destruct (is_FileNotFoundError e0) eqn:Hnf; split.
        -- discriminate.
        -- intros (_ & [= ->] & [? | ?]); congruence.
        -- intros [= ->]. auto.
        -- intros (_ & [= ->] & _). reflexivity.
Qed.

Lemma find_emulator_raises_iff_witness :
  result (find_emulator
            (sample_world (fun _ => false) (fun _ => false)
               (Raise (Exn NotADirectoryError (lit "Not a directory")))
               (Raise connection_error) (Ret tt) (Raise no_such_file))
            default_config (lit "NES"))
  = Raise (Exn NotADirectoryError (lit "Not a directory")).
Proof.
  apply find_emulator_raises_iff. split; [|split].
  - intros em _. right. reflexivity.
  - reflexivity.
  - right. reflexivity.
Defined.

(** ** Launching, in every case *)

(** X13. [launch_and_watch] returns a process exactly when the emulator
    and the ROM exist and [Popen] succeeds; it has then shown no dialog,
    spawned that one process with the ROM path as its only argument, and
    started one watcher for it.  In every other case no watcher is
    started, and [Popen] is called at most once, only after both paths
    were found. *)
Theorem launch_returns_process_iff (w : World) (emulator rom_path : str)
    (on_exit : option callback) (parent : option widget) (p : proc) :
  let launch := launch_and_watch w emulator rom_path on_exit parent in
  (result launch = Ret (Some p) <->
   w_exists w emulator = true /\ w_exists w rom_path = true /\
   w_popen w [emulator; rom_path] = Ret p)
  /\ (result launch = Ret (Some p) ->
      dialogs (events launch) = []
      /\ spawned (events launch) = [[emulator; rom_path]]
      /\ started (events launch) = [WatcherThread p on_exit])
  /\ ((forall q, result launch <> Ret (Some q)) ->
      started (events launch) = [])
  /\ (spawned (events launch) = [] \/
      (spawned (events launch) = [[emulator; rom_path]]
       /\ w_exists w emulator = true /\ w_exists w rom_path = true)).
Proof.
  cbv zeta. unfold launch_and_watch.
  destruct (w_exists w emulator) eqn:Hem; run;
    [|intuition (try discriminate; try congruence)].
  destruct (w_exists w rom_path) eqn:Hrom; run;
    [|intuition (try discriminate; try congruence)].
  destruct (w_popen w [emulator; rom_path]) as [q|e] eqn:Hpopen; run.
  - split; [|split; [|split]].
    + intuition congruence.
    + intros [= ->]. auto.
    + intros Hno. exfalso. apply (Hno q). reflexivity.
    + auto.
  - destruct (is_OSError e); run;
      intuition (try discriminate; try congruence).
Qed.

Lemma launch_returns_process_iff_witness :
  started (events (launch_and_watch emulators_world
     (lit "emulators/Nestopia.exe") (lit "roms/NES/zelda.nes") None None))
  = [WatcherThread 4242%N None].
Proof.
  apply (launch_returns_process_iff emulators_world
           (lit "emulators/Nestopia.exe") (lit "roms/NES/zelda.nes") None None
           4242%N).
  reflexivity.
Defined.

(** X14. the only exception that leaves [launch_and_watch] is one raised
    by [Popen] that is not an [OSError]; it leaves without a dialog and
    without a watcher. *)
Theorem launch_raises_iff (w : World) (emulator rom_path : str)
    (on_exit : option callback) (parent : option widget) (e : exn) :
  let launch := launch_and_watch w emulator rom_path on_exit parent in
  (result launch = Raise e <->
   w_exists w emulator = true /\ w_exists w rom_path = true /\
   w_popen w [emulator; rom_path] = Raise e /\ is_OSError e = false)
  /\ (result launch = Raise e ->
      dialogs (events launch) = [] /\ started (events launch) = []).
Proof.
  cbv zeta. unfold launch_and_watch.
  destruct (w_exists w emulator) eqn:Hem; run;
    [|intuition (try discriminate; try congruence)].
  destruct (w_exists w rom_path) eqn:Hrom; run;
    [|intuition (try discriminate; try congruence)].
  destruct (w_popen w [emulator; rom_path]) as [q|e0] eqn:Hpopen; run;
    [intuition (try discriminate; try congruence)|].
  destruct (is_OSError e0) eqn:Hos; run;
    intuition (try discriminate; try congruence).
Qed.

Lemma launch_raises_iff_witness :
  result (launch_and_watch
            (sample_world on_disk (fun _ => false) (Ret [])
               (Raise connection_error) (Ret tt)
               (Raise (Exn ValueError (lit "embedded null byte"))))
            (lit "emulators/Nestopia.exe") (lit "roms/NES/zelda.nes")
            None None)
  = Raise (Exn ValueError (lit "embedded null byte")).
Proof.
  apply launch_raises_iff. repeat split.
Defined.

(** * Facts about ui_bigpicture.py *)

Section ImageReady.
Variable w : World.
Variable pixmap_is_null : str -> bool.

Lemma set_cover_does (i : nat) (path : str) (win : Window) :
  set_cover w pixmap_is_null i path win =
    (Ret (tt, if w_exists w path && negb (pixmap_is_null path)
              then with_cards win (alter (fun c => covered c path) i
                                     (win_cards win))
              else win),
     [Core (EvPathExists path)]).
Proof.
  unfold set_cover, bindU, liftU, core, call, bindE, retE, retU.
  cbn [result events fst snd map].
  destruct (w_exists w path); [|reflexivity].
  destruct (pixmap_is_null path); reflexivity.
Qed.

Lemma image_ready_no_match (i : nat) (cards : list Card) (k path : str)
    (win : Window) :
  Forall (other_key k) cards ->
  on_image_ready_from w pixmap_is_null i cards k path win = retE (tt, win).
Proof.
  intros Hother. revert i.
  induction Hother as [|c cards (k' & Hk' & Hne) _ IH]; intros i;
    [reflexivity|].
  cbn [on_image_ready_from]. rewrite Hk'.
  assert (str_eqb k' k = false) as ->
    by (apply bool_decide_eq_false_2; exact Hne).
  apply IH.
Qed.

Lemma image_ready_first_match (i : nat) (before after : list Card)
    (card : Card) (k path : str) (win : Window) :
  Forall (other_key k) before ->
  g_key (card_game card) = Some k ->
  on_image_ready_from w pixmap_is_null i (before ++ card :: after) k path win
  = set_cover w pixmap_is_null (i + length before) path win.
Proof.
  intros Hother Hcard. revert i.
  induction Hother as [|c before (k' & Hk' & Hne) _ IH]; intros i.
  - cbn [app on_image_ready_from length]. rewrite Hcard, str_eqb_refl.
    rewrite Nat.add_0_r. reflexivity.
  - cbn [app on_image_ready_from length]. rewrite Hk'.
    assert (str_eqb k' k = false) as ->
      by (apply bool_decide_eq_false_2; exact Hne).
    rewrite IH. f_equal. lia.
Qed.

Lemma alter_middle (f : Card -> Card) (before after : list Card)
    (card : Card) :
  alter f (length before) (before ++ card :: after)
  = before ++ f card :: after.
Proof.
  induction before as [|c before IH]; [reflexivity|].
  cbn [length app]. cbn. f_equal. exact IH.
Qed.
End ImageReady.

(** X15. [on_image_ready] touches the first card whose game has the key,
    and no other: it checks that the path exists and, if the image loads,
    sets it as that card's cover.  Cards after it are left as they are,
    also when their game has the same key; and when no card has the key,
    nothing happens at all. *)
Theorem image_ready_updates_first_matching_card (w : World)
    (pixmap_is_null : str -> bool) (k path : str) (win : Window) :
  (forall before card after,
     win_cards win = before ++ card :: after ->
     Forall (other_key k) before ->
     g_key (card_game card) = Some k ->
     on_image_ready w pixmap_is_null k path win =
       (Ret (tt, if w_exists w path && negb (pixmap_is_null path)
                 then with_cards win (before ++ covered card path :: after)
                 else win),
        [Core (EvPathExists path)]))
  /\ (Forall (other_key k) (win_cards win) ->
      on_image_ready w pixmap_is_null k path win = (Ret (tt, win), [])).
Proof.
  split.
  - intros before card after Hcards Hother Hcard. unfold on_image_ready.
    rewrite Hcards, (image_ready_first_match w pixmap_is_null 0 before after
                       card k path win Hother Hcard).
    rewrite set_cover_does, Hcards. cbn [Nat.add].
    rewrite alter_middle. reflexivity.
  - intros Hother. unfold on_image_ready.
    apply image_ready_no_match, Hother.
Qed.

Lemma image_ready_updates_first_matching_card_witness :
  on_image_ready full_world (fun _ => false) (lit "NES::Zelda")
    (lit "resources/covers/NES__Zelda.png")
    (sample_window [placeholder_card metroid; placeholder_card zelda;
                    placeholder_card zelda] 0)
  = (Ret (tt, with_cards
                (sample_window [placeholder_card metroid;
                                placeholder_card zelda;
                                placeholder_card zelda] 0)
                [placeholder_card metroid;
                 covered (placeholder_card zelda)
                   (lit "resources/covers/NES__Zelda.png");
                 placeholder_card zelda]),
     [Core (EvPathExists (lit "resources/covers/NES__Zelda.png"))]).
Proof.
  apply (proj1 (image_ready_updates_first_matching_card full_world
                  (fun _ => false) (lit "NES::Zelda")
                  (lit "resources/covers/NES__Zelda.png")
                  (sample_window [placeholder_card metroid;
                                  placeholder_card zelda;
                                  placeholder_card zelda] 0))
           [placeholder_card metroid] (placeholder_card zelda)
           [placeholder_card zelda]).
  - reflexivity.
  - repeat constructor. exists (lit "NES::Metroid"). split; [reflexivity|].
    discriminate.
  - reflexivity.
Defined.

(** X16. a failure result (the empty path, which names no existing file)
    never changes the window: every card keeps the cover it had. *)
Theorem image_ready_failure_changes_nothing (w : World)
    (pixmap_is_null : str -> bool) (k : str) (win win' : Window)
    (evs : list app_event) :
  w_exists w [] = false ->
  on_image_ready w pixmap_is_null k [] win = (Ret (tt, win'), evs) ->
  win' = win.
Proof.
  intros Hempty. unfold on_image_ready.
  generalize 0%nat. generalize (win_cards win) as cards.
  induction cards as [|c cards IH]; intros i; cbn [on_image_ready_from].
  - intros [= <-]. reflexivity.
  - destruct (g_key (card_game c)) as [k'|]; [|discriminate].
    destruct (str_eqb k' k); [|apply IH].
    rewrite set_cover_does, Hempty. intros [= <-]. reflexivity.
Qed.

Lemma image_ready_failure_changes_nothing_witness :
  with_cards (sample_window [placeholder_card zelda] 0)
    (win_cards (sample_window [placeholder_card zelda] 0))
  = sample_window [placeholder_card zelda] 0.
Proof.
  apply (image_ready_failure_changes_nothing online_world (fun _ => false)
           (lit "NES::Zelda") (sample_window [placeholder_card zelda] 0)
           _ [Core (EvPathExists [])]); reflexivity.
Defined.

(** ** Keyboard navigation *)

Section Navigation.
Variable w : World.

Lemma py_index_in_range {A} (l : list A) (i : Z) :
  (0 <= i < Z.of_nat (length l))%Z -> py_index l i = Some (Z.to_nat i).
Proof.
  intros [Hlo Hhi]. unfold py_index.
  destruct (Z.leb_spec 0 i); [|lia].
  destruct (Z.ltb_spec i (Z.of_nat (length l))); [reflexivity|lia].
Qed.

Lemma focus_in_range (idx : Z) (win : Window) :
  (0 <= idx < Z.of_nat (length (win_cards win)))%Z ->
  _focus idx win =
    (Ret (tt, with_selected win idx),
     (if ((0 <=? win_selected win) &&
          (win_selected win <? Z.of_nat (length (win_cards win))))%Z
      then [QShrink (Z.to_nat (win_selected win))] else []) ++
     [QExpand (Z.to_nat idx); QEnsureVisible (Z.to_nat idx)]).
Proof.
  intros Hidx. unfold _focus.
  destruct (win_cards win) as [|c cards] eqn:Hcards; [cbn in Hidx; lia|].
  cbn [with_selected win_cards win_selected]. rewrite Hcards.
  rewrite (py_index_in_range (c :: cards) idx Hidx).
  destruct ((0 <=? win_selected win) && _)%Z; reflexivity.
Qed.

Lemma with_selected_twice (win : Window) (a b : Z) :
  with_selected (with_selected win a) b = with_selected win b.
Proof. reflexivity. Qed.

Lemma with_selected_same (win : Window) :
  with_selected win (win_selected win) = win.
Proof. destruct win; reflexivity. Qed.

(** An arrow key moves the selection by [step], modulo the number of
    cards. *)
Lemma arrow_moves (k : Key) (step : Z) (win : Window) :
  win_cards win <> [] ->
  (k = Key_Right /\ step = 1 \/ k = Key_Left /\ step = -1 \/
   k = Key_Down /\ step = 4 \/ k = Key_Up /\ step = -4)%Z ->
  resultE (keyPressEvent w k win) =
    Ret (tt, with_selected win
               ((win_selected win + step) mod
                Z.of_nat (length (win_cards win)))%Z).
Proof.
  intros Hcards Hk.
  assert (0 < Z.of_nat (length (win_cards win)))%Z as Hn.
  { destruct (win_cards win); [congruence | cbn; lia]. }
  unfold keyPressEvent.
  destruct (win_cards win) as [|c cards] eqn:Hc; [congruence|].
  rewrite <- Hc in *.
  destruct Hk as [[-> ->] | [[-> ->] | [[-> ->] | [-> ->]]]];
    rewrite focus_in_range by (apply Z.mod_pos_bound; exact Hn);
    reflexivity.
Qed.
End Navigation.

(** X17. an arrow key never fails and always leaves the selection on a
    card: whatever the selection was, the new one is at least 0 and below
    the number of cards, and the cards are unchanged.  Without cards, any
    key does nothing. *)
Theorem arrow_keys_keep_selection_in_range (w : World) (k : Key)
    (win : Window) :
  (win_cards win = [] ->
   keyPressEvent w k win = (Ret (tt, win), []))
  /\ (win_cards win <> [] ->
      k = Key_Right \/ k = Key_Left \/ k = Key_Down \/ k = Key_Up ->
      exists selected,
        resultE (keyPressEvent w k win)
          = Ret (tt, with_selected win selected)
        /\ (0 <= selected < Z.of_nat (length (win_cards win)))%Z).
Proof.
  split.
  - intros Hcards. unfold keyPressEvent. rewrite Hcards. reflexivity.
  - intros Hcards Hk.
    assert (0 < Z.of_nat (length (win_cards win)))%Z as Hn.
    { destruct (win_cards win); [congruence | cbn; lia]. }
    destruct Hk as [-> | [-> | [-> | ->]]].
    + exists ((win_selected win + 1) mod Z.of_nat (length (win_cards win)))%Z.
      split; [apply arrow_moves; auto | apply Z.mod_pos_bound; exact Hn].
    + exists ((win_selected win + -1) mod Z.of_nat (length (win_cards win)))%Z.
      split; [apply arrow_moves; auto | apply Z.mod_pos_bound; exact Hn].
    + exists ((win_selected win + 4) mod Z.of_nat (length (win_cards win)))%Z.
      split; [apply arrow_moves; auto 10 | apply Z.mod_pos_bound; exact Hn].
    + exists ((win_selected win + -4) mod Z.of_nat (length (win_cards win)))%Z.
      split; [apply arrow_moves; auto 10 | apply Z.mod_pos_bound; exact Hn].
Qed.

Lemma arrow_keys_keep_selection_in_range_witness :
  exists selected,
    resultE (keyPressEvent online_world Key_Up
               (sample_window [placeholder_card zelda;
                               placeholder_card metroid] 0))
      = Ret (tt, with_selected
                   (sample_window [placeholder_card zelda;
                                   placeholder_card metroid] 0) selected)
    /\ (0 <= selected < 2)%Z.
Proof.
  apply (proj2 (arrow_keys_keep_selection_in_range online_world Key_Up
                  (sample_window [placeholder_card zelda;
                                  placeholder_card metroid] 0))).
  - discriminate.
  - auto.
Defined.

(** X18. with the selection on a card, Left undoes Right, Right undoes
    Left, Up undoes Down and Down undoes Up: after the two keys the window
    is as it was. *)
Theorem opposite_arrows_cancel (w : World) (k k' : Key) (win : Window) :
  (0 <= win_selected win < Z.of_nat (length (win_cards win)))%Z ->
  (k = Key_Right /\ k' = Key_Left) \/ (k = Key_Left /\ k' = Key_Right) \/
  (k = Key_Down /\ k' = Key_Up) \/ (k = Key_Up /\ k' = Key_Down) ->
  resultE (bindU (keyPressEvent w k)
             (fun _ => keyPressEvent w k') win)
    = Ret (tt, win).
Proof.
  intros Hsel Hk.
  assert (win_cards win <> []) as Hcards.
  { destruct (win_cards win); [cbn in Hsel; lia | discriminate]. }
  assert (forall step : Z,
    (((win_selected win + step) mod Z.of_nat (length (win_cards win))
      + - step) mod Z.of_nat (length (win_cards win)))%Z = win_selected win)
    as Hback.
  { intros step. rewrite Zplus_mod_idemp_l.
    replace (win_selected win + step + - step)%Z with (win_selected win)
      by lia.
    apply Z.mod_small. exact Hsel. }
  assert (forall step : Z,
    (k = Key_Right /\ step = 1 \/ k = Key_Left /\ step = -1 \/
     k = Key_Down /\ step = 4 \/ k = Key_Up /\ step = -4)%Z ->
    (k' = Key_Right /\ - step = 1 \/ k' = Key_Left /\ - step = -1 \/
     k' = Key_Down /\ - step = 4 \/ k' = Key_Up /\ - step = -4)%Z ->
    resultE (bindU (keyPressEvent w k)
               (fun _ => keyPressEvent w k') win)
      = Ret (tt, win)) as Hgo.
  { intros step Hstep Hstep'.
    pose proof (arrow_moves w k step win Hcards Hstep) as H1.
    unfold bindU, bindE.
    destruct (keyPressEvent w k win) as [[[[] win1]|e] t1];
      cbn [resultE fst] in H1; [|discriminate].
    injection H1 as ->. cbn [fst snd].
    pose proof (arrow_moves w k' (- step)
                  (with_selected win
                     ((win_selected win + step) mod
                      Z.of_nat (length (win_cards win)))%Z)
                  Hcards Hstep') as H2.
    change (win_cards (with_selected win _)) with (win_cards win) in H2.
    change (win_selected (with_selected win ?a)) with a in H2.
    rewrite Hback, with_selected_twice, with_selected_same in H2.
    destruct (keyPressEvent w k' _) as [r2 t2].
    cbn [resultE fst] in *. exact H2. }
  destruct Hk as [[-> ->] | [[-> ->] | [[-> ->] | [-> ->]]]].
  - apply (Hgo 1%Z); auto.
  - apply (Hgo (-1)%Z); auto.
  - apply (Hgo 4%Z); auto 10.
  - apply (Hgo (-4)%Z); auto 10.
Qed.

Lemma opposite_arrows_cancel_witness :
  resultE (bindU (keyPressEvent online_world Key_Down)
             (fun _ => keyPressEvent online_world Key_Up)
             (sample_window [placeholder_card zelda; placeholder_card metroid;
                             placeholder_card zelda] 1))
  = Ret (tt, sample_window [placeholder_card zelda; placeholder_card metroid;
                            placeholder_card zelda] 1).
Proof.
  apply opposite_arrows_cancel; [cbn; lia | auto 10].
Defined.

(** ** Playing a game *)

Lemma scan_only_looks (w : World) (console : str) (names : list str) :
  forallb is_lookup (events (scan w console names)) = true.
Proof.
  induction names as [|name names IH]; [reflexivity|]. cbn [scan].
  destruct (str_in _ _); [|exact IH].
  apply forallb_events_bind; [reflexivity|]. intros []; [reflexivity|exact IH].
Qed.

Lemma find_emulator_lookups (w : World) (c : Config) (console : str) :
  forallb is_lookup (events (find_emulator w c console)) = true.
Proof.
  unfold find_emulator. apply forallb_events_bind.
  { destruct (default ∅ (cfg_emulators c) !! console) as [p|];
      [destruct (truthy (JStr p))|]; reflexivity. }
  intros []; [reflexivity|].
  apply forallb_events_bind; [reflexivity|]. intros is_dir.
  apply forallb_events_bind.
  { destruct is_dir; [|reflexivity].
    apply forallb_events_bind; [reflexivity|]. intros names.
    apply scan_only_looks. }
  intros [candidate|]; [reflexivity|].
  apply forallb_events_try_except; [|reflexivity].
  apply forallb_events_bind; [reflexivity|]. intros names.
  destruct (_ =? _)%nat; [|reflexivity].
  destruct (_ !! _); reflexivity.
Qed.

Lemma lookups_are_quiet (t : trace) :
  forallb is_lookup t = true ->
  dialogs t = [] /\ spawned t = [] /\ started t = [].
Proof.
  induction t as [|ev t IH]; [repeat split|].
  cbn [forallb]. intros [Hev Ht]%andb_prop.
  destruct (IH Ht) as (Hd & Hs & Hst).
  destruct ev; try discriminate; cbn; auto.
Qed.

(** X19. [find_emulator] only looks: its events are existence, directory
    and file tests and directory listings; it opens no dialog, spawns no
    process, starts no thread and writes nothing. *)
Theorem find_emulator_only_looks (w : World) (c : Config) (console : str) :
  forallb is_lookup (events (find_emulator w c console)) = true
  /\ dialogs (events (find_emulator w c console)) = []
  /\ spawned (events (find_emulator w c console)) = []
  /\ started (events (find_emulator w c console)) = [].
Proof.
  split; [apply find_emulator_lookups|].
  apply lookups_are_quiet, find_emulator_lookups.
Qed.

Section Play.
Variable w : World.

Lemma core_events_core {A} (m : M A) : core_events (eventsE (core m)) = events m.
Proof.
  unfold core, eventsE. cbn [snd]. induction (events m) as [|ev t IH];
    [reflexivity|].
  cbn. f_equal. exact IH.
Qed.

Lemma result_core {A} (m : M A) : resultE (core m) = result m.
Proof. reflexivity. Qed.

Lemma events_bindE {A B} (m : E A) (f : A -> E B) :
  eventsE (bindE m f) =
    match resultE m with
    | Ret a => eventsE m ++ eventsE (f a)
    | Raise _ => eventsE m
    end.
Proof.
  destruct m as [[a|e] t]; cbn; [destruct (f a)|]; reflexivity.
Qed.

Lemma result_bindE {A B} (m : E A) (f : A -> E B) :
  resultE (bindE m f) =
    match resultE m with Ret a => resultE (f a) | Raise e => Raise e end.
Proof.
  destruct m as [[a|e] t]; cbn; [destruct (f a)|]; reflexivity.
Qed.

Lemma core_events_app (t t' : list app_event) :
  core_events (t ++ t') = core_events t ++ core_events t'.
Proof. apply flat_map_app. Qed.

Lemma spawned_app (t t' : trace) : spawned (t ++ t') = spawned t ++ spawned t'.
Proof. apply flat_map_app. Qed.

Lemma dialogs_app (t t' : trace) : dialogs (t ++ t') = dialogs t ++ dialogs t'.
Proof. apply flat_map_app. Qed.

Lemma launch_spawned (em r : str) (cb : option callback)
    (parent : option widget) :
  spawned (events (launch_and_watch w em r cb parent)) =
    if w_exists w em && w_exists w r then [[em; r]] else [].
Proof.
  unfold launch_and_watch.
  destruct (w_exists w em); run; [|reflexivity].
  destruct (w_exists w r); run; [|reflexivity].
  destruct (w_popen w [em; r]) as [p|e]; run; [reflexivity|].
  destruct (is_OSError e); reflexivity.
Qed.

Lemma launch_dialogs_rom_present (em r : str) (cb : option callback)
    (parent : option widget) :
  w_exists w r = true ->
  Forall (fun d => fst d <> lit "ROM Missing")
    (dialogs (events (launch_and_watch w em r cb parent))).
Proof.
  intros Hrom. unfold launch_and_watch.
  destruct (w_exists w em); run.
  - rewrite Hrom. run.
    destruct (w_popen w [em; r]) as [p|e]; run; [constructor|].
    destruct (is_OSError e); run; repeat constructor. discriminate.
  - repeat constructor. discriminate.
Qed.

(** The events of [_play], by case. *)
Lemma play_events (game : Game) (win : Window) :
  core_events (eventsE (_play w game win)) =
    match g_console game, g_rom_path game with
    | Some c, Some r =>
        if negb (truthy (JStr c)) || negb (truthy (JStr r)) then
          [EvCritical (Some (win_id win)) (lit "Invalid Game")
             (lit "Game is missing required information (console or path).");
           EvPrint (lit "Invalid game:") [game_json game]]
        else
          events (find_emulator w (win_cfg win) c) ++
          match result (find_emulator w (win_cfg win) c) with
          | Raise _ => []
          | Ret em =>
              if negb (truthy_opt em) then
                [EvPrint (lit "Emulator not found for:") [JStr c]]
              else
                EvPathExists r ::
                if negb (w_exists w r) then
                  [EvPrint (lit "ROM not found:") [JStr r]]
                else
                  match g_name game with
                  | None => []
                  | Some name =>
                      EvPrint
                        (lit "Launching {game['name']} ({console}) with {em}")
                        [JStr name; JStr c; opt_json em]
                      :: events (launch_and_watch w (default [] em) r
                                   (Some exit_printer) (Some (win_id win)))
                  end
          end
    | _, _ =>
        [EvCritical (Some (win_id win)) (lit "Invalid Game")
           (lit "Game is missing required information (console or path).");
         EvPrint (lit "Invalid game:") [game_json game]]
    end.
Proof.
  unfold _play.
  destruct (g_console game) as [c|], (g_rom_path game) as [r|];
    try reflexivity.
  destruct (negb (truthy (JStr c)) || negb (truthy (JStr r)));
    [reflexivity|].
  rewrite events_bindE, result_core.
  destruct (result (find_emulator w (win_cfg win) c)) as [em|e];
    [|rewrite app_nil_r; apply core_events_core].
  rewrite core_events_app, core_events_core.
  f_equal. destruct (negb (truthy_opt em)); [reflexivity|].
  rewrite events_bindE, result_core. cbn [call result fst].
  rewrite core_events_app, core_events_core.
  cbn [call events snd app]. f_equal.
  destruct (w_exists w r); [|reflexivity]. cbn [negb].
  destruct (g_name game) as [name|]; [|reflexivity].
  rewrite events_bindE, result_core. cbn [log result fst].
  rewrite core_events_app, core_events_core.
  cbn [log events snd app]. f_equal.
  rewrite events_bindE, result_core.
  destruct (result (launch_and_watch w _ r _ _)); [|apply core_events_core].
  cbn [retE eventsE snd]. rewrite app_nil_r. apply core_events_core.
Qed.
End Play.

(** X20. [_play] calls [Popen] at most once, and only for a game with a
    console, a ROM path and a name, for which [find_emulator] found an
    emulator and whose ROM exists; the command is then that emulator,
    which exists, with the ROM path as its only argument. *)
Theorem play_spawns_only_a_found_emulator (w : World) (game : Game)
    (win : Window) (argv : list str) :
  In argv (spawned (core_events (eventsE (_play w game win)))) ->
  exists c r em name,
    g_console game = Some c /\ c <> [] /\
    g_rom_path game = Some r /\ r <> [] /\
    g_name game = Some name /\
    result (find_emulator w (win_cfg win) c) = Ret (Some em) /\
    w_exists w em = true /\ w_exists w r = true /\
    argv = [em; r] /\
    spawned (core_events (eventsE (_play w game win))) = [[em; r]].
Proof.
  rewrite play_events.
  assert (forall s : str, negb (truthy (JStr s)) = false -> s <> []) as Hne.
  { intros s Hs ->. discriminate. }
  destruct (g_console game) as [c|]; [|intros []].
  destruct (g_rom_path game) as [r|]; [|intros []].
  destruct (negb (truthy (JStr c))) eqn:Hc; [intros []|].
  destruct (negb (truthy (JStr r))) eqn:Hr; [intros []|].
  cbn [orb]. rewrite spawned_app.
  destruct (lookups_are_quiet _ (find_emulator_lookups w (win_cfg win) c))
    as (_ & -> & _).
  cbn [app].
  destruct (result (find_emulator w (win_cfg win) c)) as [em|e] eqn:Hfound;
    [|intros []].
  destruct em as [em|]; [|intros []]. cbn [truthy_opt].
  destruct (negb (truthy (JStr em))) eqn:Hem; [intros []|].
  cbn [spawned flat_map app]. fold (spawned).
  destruct (w_exists w r) eqn:Hrom; [|intros []]. cbn [negb].
  destruct (g_name game) as [name|]; [|intros []].
  change (spawned ?t) with (flat_map (fun ev =>
    match ev with EvPopen argv => [argv] | _ => [] end) t).
  cbn [flat_map app]. fold (spawned (events (launch_and_watch w
    (default [] (Some em)) r (Some exit_printer) (Some (win_id win))))).
  rewrite launch_spawned, Hrom, andb_true_r. cbn [default from_option id].
  destruct (w_exists w em) eqn:Hexists; [|intros []].
  intros [<- | []]. exists c, r, em, name.
  repeat split; auto.
Qed.

Lemma play_spawns_only_a_found_emulator_witness :
  exists c r em name,
    g_console zelda = Some c /\ c <> [] /\
    g_rom_path zelda = Some r /\ r <> [] /\
    g_name zelda = Some name /\
    result (find_emulator emulators_world default_config c) = Ret (Some em) /\
    w_exists emulators_world em = true /\
    w_exists emulators_world r = true /\
    [lit "emulators/Nestopia.exe"; lit "roms/NES/zelda.nes"] = [em; r] /\
    spawned (core_events (eventsE (_play emulators_world zelda
               (sample_window [placeholder_card zelda] 0)))) = [[em; r]].
Proof.
  apply (play_spawns_only_a_found_emulator emulators_world zelda
           (sample_window [placeholder_card zelda] 0)
           [lit "emulators/Nestopia.exe"; lit "roms/NES/zelda.nes"]).
  left. reflexivity.
Defined.

(** X21. the "ROM Missing" dialog of [launch_and_watch] never appears
    through [_play]: [_play] tests the ROM path itself and, when it is
    missing, warns and returns without calling [launch_and_watch]. *)
Theorem play_never_reaches_the_missing_rom_dialog (w : World) (game : Game)
    (win : Window) :
  Forall (fun d => fst d <> lit "ROM Missing")
    (dialogs (core_events (eventsE (_play w game win))))
  /\ (forall c r em,
        g_console game = Some c -> c <> [] ->
        g_rom_path game = Some r -> r <> [] ->
        result (find_emulator w (win_cfg win) c) = Ret (Some em) ->
        em <> [] -> w_exists w r = false ->
        resultE (_play w game win) = Ret (tt, win)
        /\ warnings (eventsE (_play w game win)) =
             [(lit "ROM Not Found",
               lit "ROM file not found:" ++ [10%N] ++ r)]
        /\ spawned (core_events (eventsE (_play w game win))) = []).
Proof.
  split.
  - rewrite play_events.
    assert (Forall (fun d : str * str => fst d <> lit "ROM Missing")
              [(lit "Invalid Game",
                lit "Game is missing required information (console or path).")])
      as Hinvalid by (repeat constructor; discriminate).
    destruct (g_console game) as [c|]; [|exact Hinvalid].
    destruct (g_rom_path game) as [r|]; [|exact Hinvalid].
    destruct (negb (truthy (JStr c)) || negb (truthy (JStr r)));
      [exact Hinvalid|].
    rewrite dialogs_app.
    destruct (lookups_are_quiet _ (find_emulator_lookups w (win_cfg win) c))
      as (-> & _ & _).
    cbn [app].
    destruct (result (find_emulator w (win_cfg win) c)) as [em|e];
      [|constructor].
    destruct (negb (truthy_opt em)); [constructor|].
    destruct (w_exists w r) eqn:Hrom; [|constructor]. cbn [negb].
    destruct (g_name game) as [name|]; [|constructor].
    apply (launch_dialogs_rom_present w (default [] em) r
             (Some exit_printer) (Some (win_id win)) Hrom).
  - intros c r em Hc Hcne Hr Hrne Hfound Hem Hrom.
    assert (forall s : str, s <> [] -> truthy (JStr s) = true) as Htruthy.
    { intros s Hs. cbn. unfold str_eqb. rewrite bool_decide_eq_false_2; auto. }
    pose proof (lookups_are_quiet _ (find_emulator_lookups w (win_cfg win) c))
      as (_ & Hspawn & _).
    split; [|split].
    + unfold _play. rewrite Hc, Hr, (Htruthy c Hcne), (Htruthy r Hrne).
      cbn [negb orb]. rewrite result_bindE, result_core, Hfound.
      cbn [truthy_opt]. rewrite (Htruthy em Hem). cbn [negb].
      rewrite result_bindE, result_core. cbn [call result fst].
      rewrite Hrom. reflexivity.
    + unfold _play. rewrite Hc, Hr, (Htruthy c Hcne), (Htruthy r Hrne).
      cbn [negb orb]. rewrite events_bindE, result_core, Hfound.
      cbn [truthy_opt]. rewrite (Htruthy em Hem). cbn [negb].
      rewrite events_bindE, result_core. cbn [call result fst].
      rewrite Hrom. cbn [negb].
      unfold warnings. rewrite !flat_map_app.
      assert (forall t : trace,
        flat_map (fun ev : app_event =>
          match ev with QWarning _ title text => [(title, text)] | _ => [] end)
          (map Core t) = []) as Hcore.
      { induction t as [|ev t IH]; [reflexivity|exact IH]. }
      unfold core, eventsE. cbn [snd]. rewrite !Hcore. reflexivity.
    + rewrite play_events, Hc, Hr, (Htruthy c Hcne), (Htruthy r Hrne).
      cbn [negb orb]. rewrite Hfound. cbn [truthy_opt].
      rewrite (Htruthy em Hem), Hrom. cbn [negb].
      rewrite spawned_app, Hspawn. reflexivity.
Qed.

Lemma play_never_reaches_the_missing_rom_dialog_witness :
  warnings (eventsE (_play emulators_world metroid
                       (sample_window [placeholder_card metroid] 0)))
  = [(lit "ROM Not Found",
      lit "ROM file not found:" ++ [10%N] ++ lit "roms/NES/metroid.nes")].
Proof.
  apply (proj2 (play_never_reaches_the_missing_rom_dialog emulators_world
                  metroid (sample_window [placeholder_card metroid] 0))
           (lit "NES") (lit "roms/NES/metroid.nes")
           (lit "emulators/Nestopia.exe"));
    try reflexivity; discriminate.
Defined.

(** ** Filling the grid *)

Section Populate.
Variable w : World.
Variable pixmap_is_null : str -> bool.

Lemma same_but_covers_refl (win : Window) : same_but_covers win win.
Proof. repeat split. Qed.

Lemma same_but_covers_trans (a b c : Window) :
  same_but_covers a b -> same_but_covers b c -> same_but_covers a c.
Proof.
  unfold same_but_covers. intros (?&?&?&?&?&?&?) (?&?&?&?&?&?&?).
  repeat split; congruence.
Qed.

Lemma has_key_preserved (win win' : Window) :
  same_but_covers win win' ->
  Forall has_key (win_cards win) -> Forall has_key (win_cards win').
Proof.
  intros (_&_&_&_&Hgames&_&_) Hkeys.
  apply (List.Forall_map card_game (fun g => is_Some (g_key g))).
  rewrite Hgames.
  apply (List.Forall_map card_game (fun g => is_Some (g_key g))).
  exact Hkeys.
Qed.

Lemma set_cover_keeps_layout (i : nat) (path : str) (win : Window) :
  exists win',
    set_cover w pixmap_is_null i path win
      = (Ret (tt, win'), [Core (EvPathExists path)])
    /\ same_but_covers win win'.
Proof.
  rewrite set_cover_does.
  destruct (w_exists w path && negb (pixmap_is_null path)).
  - eexists. split; [reflexivity|]. repeat split. cbn [with_cards win_cards].
    generalize i. induction (win_cards win) as [|c cards IH]; intros [|j];
      cbn; try reflexivity; f_equal; apply IH.
  - exists win. split; [reflexivity | apply same_but_covers_refl].
Qed.

Lemma image_ready_from_keeps_layout (i : nat) (cards : list Card)
    (k path : str) (win : Window) :
  Forall has_key cards ->
  exists win' evs,
    on_image_ready_from w pixmap_is_null i cards k path win
      = (Ret (tt, win'), evs)
    /\ same_but_covers win win'
    /\ forallb is_lookup (core_events evs) = true.
Proof.
  intros Hkeys. revert i.
  induction Hkeys as [|c cards [k' Hk'] _ IH]; intros i;
    cbn [on_image_ready_from].
  - exists win, []. split; [reflexivity|].
    split; [apply same_but_covers_refl | reflexivity].
  - rewrite Hk'. destruct (str_eqb k' k); [|apply IH].
    destruct (set_cover_keeps_layout i path win) as (win' & -> & Hsame).
    exists win', [Core (EvPathExists path)]. auto.
Qed.

Lemma deliver_keeps_layout (t : trace) (win : Window) :
  Forall has_key (win_cards win) ->
  exists win' evs,
    deliver_signals w pixmap_is_null t win = (Ret (tt, win'), evs)
    /\ same_but_covers win win'
    /\ forallb is_lookup (core_events evs) = true.
Proof.
  revert win. induction t as [|ev t IH]; intros win Hkeys.
  - exists win, []. split; [reflexivity|].
    split; [apply same_but_covers_refl | reflexivity].
  - destruct ev; cbn [deliver_signals]; try (apply IH; exact Hkeys).
    unfold bindU, on_image_ready.
    destruct (image_ready_from_keeps_layout 0 (win_cards win) key path win
                Hkeys) as (win1 & evs1 & -> & Hsame1 & Hlook1).
    destruct (IH win1 (has_key_preserved win win1 Hsame1 Hkeys))
      as (win2 & evs2 & Hrun & Hsame2 & Hlook2).
    cbn [bindE fst snd]. rewrite Hrun.
    exists win2, (evs1 ++ evs2). split; [reflexivity|].
    split; [eapply same_but_covers_trans; eassumption|].
    rewrite core_events_app, forallb_app, Hlook1, Hlook2. reflexivity.
Qed.
Lemma placements_cons (first : nat) (slot : Z) (g : Game)
    (rest : list Game) :
  placements first slot (g :: rest) =
    (first, (slot / 4)%Z, (slot mod 4)%Z)
      :: placements (S first) (slot + 1)%Z rest.
Proof.
  unfold placements. cbn [imap]. rewrite Nat.add_0_r, Z.add_0_r. f_equal.
  apply imap_ext. intros j g' _. unfold compose.
  replace (first + S j)%nat with (S first + j)%nat by lia.
  replace (slot + Z.of_nat (S j))%Z with (slot + 1 + Z.of_nat j)%Z by lia.
  reflexivity.
Qed.

Lemma core_events_map_core (t : trace) : core_events (map Core t) = t.
Proof. induction t as [|ev t IH]; [reflexivity|]. cbn. f_equal. exact IH. Qed.

Lemma requested_keys_app (t t' : trace) :
  requested_keys (t ++ t') = requested_keys t ++ requested_keys t'.
Proof. apply flat_map_app. Qed.

Lemma lookups_request_nothing (t : trace) :
  forallb is_lookup t = true -> requested_keys t = [].
Proof.
  induction t as [|ev t IH]; [reflexivity|]. cbn [forallb].
  intros [Hev Ht]%andb_prop. destruct ev; try discriminate; cbn; auto.
Qed.

Lemma fetch_requests_its_key (self : ImageFetcher) (k name : str)
    (url : option str) :
  result (fetch w self k name url) = Ret tt
  /\ requested_keys (events (fetch w self k name url)) = [k].
Proof.
  unfold fetch. rewrite bind_call_ret.
  destruct (w_exists w (_local_path_for w self k)); split; reflexivity.
Qed.

Lemma populate_from_places (games : list Game) (r c : Z) (win : Window) :
  (0 <= c < 4)%Z ->
  Forall has_key_and_name games ->
  Forall has_key (win_cards win) ->
  exists win' evs,
    populate_from w pixmap_is_null games r c win = (Ret (tt, win'), evs)
    /\ map card_game (win_cards win') = map card_game (win_cards win) ++ games
    /\ win_grid win' =
         win_grid win ++ placements (length (win_cards win)) (4 * r + c) games
    /\ win_selected win' = win_selected win
    /\ map Some (requested_keys (core_events evs)) = map g_key games.
Proof.
  intros Hc Hgames. revert r c win Hc.
  induction Hgames as [|g rest [[k Hk] [name Hname]] _ IH];
    intros r c win Hc Hkeys.
  - exists win, []. cbn. rewrite !app_nil_r. auto.
  - cbn [populate_from]. unfold bindU at 1. rewrite Hk, Hname.
    set (win1 := with_grid (with_cards win
                   (win_cards win ++ [{| card_game := g; card_cover := None |}]))
                   (win_grid win ++ [(length (win_cards win), r, c)])).
    destruct (fetch_requests_its_key (win_fetcher win1) k name (g_image_url g))
      as [Hret Hreq].
    assert (Forall has_key (win_cards win1)) as Hkeys1.
    { subst win1. cbn [with_grid with_cards win_cards].
      apply Forall_app. split; [exact Hkeys|].
      repeat constructor. exists k. exact Hk. }
    destruct (deliver_keeps_layout
                (events (fetch w (win_fetcher win1) k name (g_image_url g)))
                win1 Hkeys1) as (win2 & evs2 & Hrun & Hsame & Hlook).
    pose proof Hsame as (_ & _ & _ & _ & Hgames2 & Hgrid2 & Hsel2).
    assert (length (win_cards win2) = S (length (win_cards win))) as Hlen.
    { rewrite <- (length_map card_game), Hgames2, length_map.
      subst win1. cbn [with_grid with_cards win_cards].
      rewrite length_app. cbn. lia. }
    set (r' := if (c + 1 >=? 4)%Z then (r + 1)%Z else r).
    set (c' := if (c + 1 >=? 4)%Z then 0%Z else (c + 1)%Z).
    assert ((0 <= c' < 4)%Z /\ (4 * r' + c' = 4 * r + c + 1)%Z) as [Hc' Hslot].
    { subst r' c'. destruct (Z.geb_spec (c + 1) 4); lia. }
    destruct (IH r' c' win2 Hc' (has_key_preserved win1 win2 Hsame Hkeys1))
      as (win3 & evs3 & Hrest & Hgames3 & Hgrid3 & Hsel3 & Hreq3).
    assert (populate_from w pixmap_is_null rest
              (if (c + 1 >=? 4)%Z then (r + 1)%Z else r)
              (if (c + 1 >=? 4)%Z then 0%Z else (c + 1)%Z) win2
            = (Ret (tt, win3), evs3)) as Hrest'.
    { exact Hrest. }
    exists win3.
    eexists. split.
    { unfold bindE at 1. unfold logE at 1. unfold bindE at 1.
      unfold core at 1. fold win1. rewrite Hret.
      unfold bindE at 1. rewrite Hrun. cbn [fst snd].
      destruct (c + 1 >=? 4)%Z; rewrite Hrest'; reflexivity. }
    split; [|split; [|split]].
    + rewrite Hgames3, Hgames2. subst win1.
      cbn [with_grid with_cards win_cards]. rewrite map_app. cbn [map].
      rewrite <- app_assoc. reflexivity.
    + rewrite Hgrid3, Hgrid2, Hlen, Hslot, placements_cons. subst win1.
      cbn [with_grid with_cards win_grid]. rewrite <- app_assoc. cbn [app].
      assert ((4 * r + c) / 4 = r /\ (4 * r + c) mod 4 = c)%Z as [-> ->].
      { split.
        - rewrite Z.mul_comm, Z.div_add_l by lia.
          rewrite Z.div_small by lia. lia.
        - rewrite Z.add_comm, Z.mul_comm, Z.mod_add by lia.
          apply Z.mod_small. lia. }
      reflexivity.
    + rewrite Hsel3, Hsel2. reflexivity.
    + cbn [map]. rewrite Hk, <- Hreq3.
      rewrite !core_events_app, core_events_map_core, !requested_keys_app.
      rewrite Hreq, (lookups_request_nothing _ Hlook). reflexivity.
Qed.
End Populate.

(** X22. when every game has a key and a name, [_populate_grid] adds one
    card per game, in order, after the cards the window already has (it
    does not clear them), empties the grid and places the new cards four
    to a row: the [j]-th at row [j / 4], column [j mod 4].  It requests
    one cover per game, in the order of the games, and leaves the
    selection alone. *)
Theorem populate_grid_fills_rows_of_four (w : World)
    (pixmap_is_null : str -> bool) (win : Window) :
  Forall has_key_and_name (win_games win) ->
  Forall has_key (win_cards win) ->
  exists win' evs,
    _populate_grid w pixmap_is_null win = (Ret (tt, win'), evs)
    /\ map card_game (win_cards win')
       = map card_game (win_cards win) ++ win_games win
    /\ win_grid win' =
         imap (fun j _ => ((length (win_cards win) + j)%nat,
                           (Z.of_nat j / 4)%Z, (Z.of_nat j mod 4)%Z))
           (win_games win)
    /\ win_selected win' = win_selected win
    /\ map Some (requested_keys (core_events evs)) = map g_key (win_games win).
Proof.
  intros Hgames Hkeys. unfold _populate_grid.
  destruct (populate_from_places w pixmap_is_null (win_games win) 0 0
              (with_grid win []) ltac:(lia) Hgames Hkeys)
    as (win' & evs & Hrun & Hcards & Hgrid & Hsel & Hreq).
  exists win', evs. repeat split; auto.
Qed.

Lemma populate_grid_fills_rows_of_four_witness :
  exists win' evs,
    _populate_grid full_world (fun _ => false)
      {| win_id := 1%N; win_cfg := default_config;
         win_fetcher := sample_fetcher;
         win_games := [zelda; metroid; zelda; metroid; zelda];
         win_cards := []; win_grid := []; win_selected := 0 |}
      = (Ret (tt, win'), evs)
    /\ map card_game (win_cards win')
       = [zelda; metroid; zelda; metroid; zelda]
    /\ win_grid win' =
         [(0%nat, 0%Z, 0%Z); (1%nat, 0%Z, 1%Z); (2%nat, 0%Z, 2%Z);
          (3%nat, 0%Z, 3%Z); (4%nat, 1%Z, 0%Z)]
    /\ win_selected win' = 0%Z
    /\ map Some (requested_keys (core_events evs))
       = map g_key [zelda; metroid; zelda; metroid; zelda].
Proof.
  apply (populate_grid_fills_rows_of_four full_world (fun _ => false)
           {| win_id := 1%N; win_cfg := default_config;
              win_fetcher := sample_fetcher;
              win_games := [zelda; metroid; zelda; metroid; zelda];
              win_cards := []; win_grid := []; win_selected := 0 |}).
  - repeat constructor; eexists; reflexivity.
  - constructor.
Defined.

(** * Facts about config.py *)

(** X23. [save_config] never writes anything.  The directory part of
    "config.json" is the empty string, [os.makedirs] of it raises
    [FileNotFoundError], and the [except] clause turns that into a printed
    message: the file is not even opened, whatever the configuration and
    whatever the disk. *)
Theorem save_config_never_opens_the_file (w : World)
    (open_text : str -> str -> outcome unit)
    (close_text : str -> outcome unit)
    (json_dump : str -> json -> outcome unit) (c : json) :
  os_path_dirname CONFIG_PATH = []
  /\ save_config w open_text close_text json_dump c =
       (Ret tt,
        [Core (EvMakedirs []);
         Core (EvPrint (lit "Error saving config: {e}")
                 [JStr (lit "[Errno 2] No such file or directory: ''")])]).
Proof. split; reflexivity. Qed.

(** X24. what [load_config] returns.  When the file cannot be opened
    ([OSError]) or does not parse ([JSONDecodeError]), the defaults; when it
    opens, parses and closes, the parsed value; and it raises only an
    exception that is not an [OSError], coming from opening, reading or
    closing the file. *)
Theorem load_config_result (w : World)
    (open_text : str -> str -> outcome unit)
    (close_text : str -> outcome unit) (json_load : str -> json_read)
    (json_dump : str -> json -> outcome unit) :
  let load := load_config w open_text close_text json_load json_dump in
  (forall e, open_text CONFIG_PATH (lit "r") = Raise e -> is_OSError e = true ->
     resultE load = Ret DEFAULT)
  /\ (forall msg, open_text CONFIG_PATH (lit "r") = Ret tt ->
      close_text CONFIG_PATH = Ret tt ->
      json_load CONFIG_PATH = DecodeError msg ->
      resultE load = Ret DEFAULT)
  /\ (forall v, open_text CONFIG_PATH (lit "r") = Ret tt ->
      close_text CONFIG_PATH = Ret tt ->
      json_load CONFIG_PATH = Loaded v ->
      resultE load = Ret v)
  /\ (forall e, resultE load = Raise e -> is_OSError e = false).
Proof.
  cbv zeta. unfold load_config.
  rewrite result_bindE. cbn [core call result resultE fst].
  rewrite result_bindE.
  assert (resultE (if negb (w_exists w CONFIG_PATH)
                   then save_config w open_text close_text json_dump DEFAULT
                   else retE tt) = Ret tt) as ->.
  { destruct (w_exists w CONFIG_PATH); reflexivity. }
  rewrite result_bindE.
  destruct (open_text CONFIG_PATH (lit "r")) as [[]|e0] eqn:Hopen.
  - destruct (close_text CONFIG_PATH) as [[]|e1] eqn:Hclose.
    + destruct (json_load CONFIG_PATH) as [v|msg|e2] eqn:Hload.
      * cbn. repeat split; try discriminate; try congruence.
      * cbn. repeat split; try discriminate; try congruence.
      * cbn. destruct (is_OSError e2) eqn:He2; cbn;
          repeat split; try discriminate; try congruence.
    + cbn. destruct (is_OSError e1) eqn:He1; cbn;
        repeat split; try discriminate; try congruence.
  - cbn. destruct (is_OSError e0) eqn:He0; cbn;
      repeat split; try discriminate; try congruence.
Qed.

Lemma load_config_result_witness :
  resultE (load_config online_world
             (fun _ _ => Raise no_such_file) (fun _ => Ret tt)
             (fun _ => DecodeError []) (fun _ _ => Ret tt))
  = Ret DEFAULT
  /\ resultE (load_config full_world
                (fun _ _ => Ret tt) (fun _ => Ret tt)
                (fun _ => Loaded (JDict [(lit "roms_dir", JStr (lit "r"))]))
                (fun _ _ => Ret tt))
     = Ret (JDict [(lit "roms_dir", JStr (lit "r"))]).
Proof.
  split.
  - apply (proj1 (load_config_result online_world
                    (fun _ _ => Raise no_such_file) (fun _ => Ret tt)
                    (fun _ => DecodeError []) (fun _ _ => Ret tt))
             no_such_file); reflexivity.
  - apply (proj1 (proj2 (proj2 (load_config_result full_world
                    (fun _ _ => Ret tt) (fun _ => Ret tt)
                    (fun _ => Loaded (JDict [(lit "roms_dir", JStr (lit "r"))]))
                    (fun _ _ => Ret tt)))));
      reflexivity.
Defined.

(** X25. [load_config] never writes: on a first run, with no config.json,
    it tries to save the defaults, which fails as every [save_config] does,
    and goes on to read; no file is opened for writing and nothing is
    dumped, so the file is still missing afterwards. *)
Theorem load_config_never_writes (w : World)
    (open_text : str -> str -> outcome unit)
    (close_text : str -> outcome unit) (json_load : str -> json_read)
    (json_dump : str -> json -> outcome unit) :
  opened_for_writing
    (eventsE (load_config w open_text close_text json_load json_dump)) = []
  /\ Forall (fun ev => forall p v, ev <> JsonDump p v)
       (eventsE (load_config w open_text close_text json_load json_dump)).
Proof.
  unfold load_config.
  destruct (w_exists w CONFIG_PATH);
    destruct (open_text CONFIG_PATH (lit "r")) as [[]|e0];
    try destruct (is_OSError e0) eqn:He0;
    destruct (close_text CONFIG_PATH) as [[]|e1];
    try destruct (is_OSError e1) eqn:He1;
    destruct (json_load CONFIG_PATH) as [v|msg|e2];
    try destruct (is_OSError e2) eqn:He2;
    cbn; rewrite ?He0, ?He1, ?He2; cbn;
    (split; [reflexivity | repeat constructor; discriminate]).
Qed.

(** * Facts about games.py *)

Section Folders.
Variable w : World.
Variable abspath : str -> str.

Lemma scan_files_result (console cpath : str) (files : list str) :
  resultE (scan_files w abspath console cpath files) =
    Ret (map (folder_game abspath console cpath)
           (List.filter (is_supported w) files)).
Proof.
  induction files as [|file files IH]; [reflexivity|].
  cbn [scan_files List.filter]. unfold is_supported at 1.
  destruct (endswith_any SUPPORTED_EXTS (lower w file)); [|exact IH].
  rewrite result_bindE. cbn [callE resultE fst].
  rewrite result_bindE, IH. reflexivity.
Qed.

Lemma folder_game_from_folder (roms_dir console file : str) :
  is_supported w file = true ->
  w_isdir w (os_path_join roms_dir console) = true ->
  from_folder w abspath roms_dir
    (folder_game abspath console (os_path_join roms_dir console) file).
Proof. intros Hsup Hdir. exists console, file. repeat split; auto. Qed.

Lemma scan_consoles_from_folder (roms_dir : str) (consoles : list str)
    (games : list Game) :
  resultE (scan_consoles w abspath roms_dir consoles) = Ret games ->
  Forall (from_folder w abspath roms_dir) games.
Proof.
  revert games. induction consoles as [|console rest IH]; intros games.
  - intros [= <-]. constructor.
  - cbn [scan_consoles]. rewrite result_bindE. cbn [core call result resultE fst].
    destruct (w_isdir w (os_path_join roms_dir console)) eqn:Hdir;
      cbn [negb]; [|apply IH].
    rewrite result_bindE. cbn [core call result resultE fst].
    destruct (w_listdir w (os_path_join roms_dir console)) as [files|e];
      [|discriminate].
    rewrite result_bindE, scan_files_result, result_bindE.
    destruct (resultE (scan_consoles w abspath roms_dir rest)) as [more|e];
      [|discriminate].
    intros [= <-]. apply Forall_app. split; [|apply IH; reflexivity].
    apply List.Forall_map. apply List.Forall_forall. intros file Hin.
    apply filter_In in Hin as [_ Hsup].
    apply folder_game_from_folder; assumption.
Qed.

Lemma from_folder_has_key_and_name (roms_dir : str) (g : Game) :
  from_folder w abspath roms_dir g -> has_key_and_name g.
Proof.
  intros (console & file & _ & _ & Hname & Hkey & _).
  split; [rewrite Hkey | rewrite Hname]; eexists; reflexivity.
Qed.
End Folders.

Section ScanRomsFacts.
Variable w : World.
Variable open_text : str -> str -> outcome unit.
Variable close_text : str -> outcome unit.
Variable games_load : str -> games_read.
Variable abspath : str -> str.
Variable isdir_fd : Z -> outcome bool.
Variable listdir_fd : Z -> outcome (list str).

(** [scan_roms] when data/games.json is not there: the games come from
    the console directories of a ROMs directory named by a string, and there
    are none when that directory is missing or "roms_dir" is a number or a
    boolean. *)
Lemma scan_roms_without_data_file (c : json) (games : list Game) :
  w_exists w data_file = false ->
  resultE (scan_roms w open_text close_text games_load abspath
             isdir_fd listdir_fd c) = Ret games ->
  games = []
  \/ (w_isdir w (roms_dir_of c) = true /\
      exists consoles,
        w_listdir w (roms_dir_of c) = Ret consoles /\
        resultE (scan_consoles w abspath (roms_dir_of c) (sorted consoles))
          = Ret games).
Proof.
  intros Hdata. unfold scan_roms. rewrite result_bindE.
  cbn [core call result resultE fst]. rewrite Hdata.
  rewrite result_bindE. cbn [retE resultE fst]. rewrite result_bindE.
  rewrite result_bindE.
  assert (forall s,
    resultE
      (let* is_dir := core (call (EvIsDir s) (Ret (w_isdir w s))) in
       if negb is_dir
       then let* _ := core (log (EvPrint (lit "No ROMs directory found:")
                                   [JStr s])) in
            retE None
       else let* consoles := core (call (EvListDir s) (w_listdir w s)) in
            let* found := scan_consoles w abspath s (sorted consoles) in
            retE (Some found))
    = if w_isdir w s
      then match w_listdir w s with
           | Ret consoles =>
               match resultE (scan_consoles w abspath s (sorted consoles)) with
               | Ret found => Ret (Some found)
               | Raise e => Raise e
               end
           | Raise e => Raise e
           end
      else Ret None) as Hscan.
  { intros s. rewrite result_bindE. cbn [core call result resultE fst].
    destruct (w_isdir w s); cbn [negb]; [|reflexivity].
    rewrite result_bindE. cbn [core call result resultE fst].
    destruct (w_listdir w s) as [consoles|e]; [|reflexivity].
    rewrite result_bindE.
    destruct (resultE (scan_consoles w abspath s (sorted consoles)));
      reflexivity. }
  assert (forall fd shown type_name found,
    resultE (scan_descriptor isdir_fd listdir_fd fd shown type_name)
      = Ret found -> found = None \/ found = Some []) as Hfd.
  { intros fd shown type_name found. unfold scan_descriptor.
    rewrite result_bindE. cbn [callE resultE fst].
    destruct (isdir_fd fd) as [[|]|e]; cbn [negb]; try discriminate.
    - rewrite result_bindE. cbn [callE resultE fst].
      destruct (listdir_fd fd) as [consoles|e]; [|discriminate].
      destruct (sorted consoles); [|discriminate].
      intros [= <-]. right. reflexivity.
    - intros [= <-]. left. reflexivity. }
  destruct c as [| | | | |kv]; try discriminate.
  cbn [roms_dir_of retE resultE fst].
  destruct (assoc (lit "roms_dir") kv) as [[|b|fd|s|l|kv']|];
    cbn [default from_option id]; try discriminate.
  - destruct (resultE (scan_descriptor isdir_fd listdir_fd
                         (if b then 1 else 0) (JBool b) (lit "bool")))
      as [found|e] eqn:Hfound; [|discriminate].
    destruct (Hfd _ _ _ _ Hfound) as [-> | ->]; cbn; intros [= <-]; auto.
  - destruct (resultE (scan_descriptor isdir_fd listdir_fd fd (JNum fd)
                         (lit "int"))) as [found|e] eqn:Hfound;
      [|discriminate].
    destruct (Hfd _ _ _ _ Hfound) as [-> | ->]; cbn; intros [= <-]; auto.
  - rewrite (Hscan s). destruct (w_isdir w s) eqn:Hdir;
      [|intros [= <-]; left; reflexivity].
    destruct (w_listdir w s) as [consoles|e] eqn:Hlist; [|discriminate].
    destruct (resultE (scan_consoles w abspath s (sorted consoles)))
      as [found|e] eqn:Hfound; [|discriminate].
    cbn. intros [= <-]. right. eauto.
  - rewrite (Hscan (lit "roms")).
    destruct (w_isdir w (lit "roms")) eqn:Hdir;
      [|intros [= <-]; left; reflexivity].
    destruct (w_listdir w (lit "roms")) as [consoles|e] eqn:Hlist;
      [|discriminate].
    destruct (resultE (scan_consoles w abspath (lit "roms") (sorted consoles)))
      as [found|e] eqn:Hfound; [|discriminate].
    cbn. intros [= <-]. right. eauto.
Qed.
End ScanRomsFacts.

(** X26. without data/games.json, every game that [scan_roms] returns
    comes from a file with a supported extension in a console directory
    under the ROMs directory: its console is the directory's name, its
    name the file name without the extension, its key "console::name",
    its ROM path the absolute path of the file.  Such games all have a key
    and a name, so a fresh window fills its grid with them without an
    exception, one card per game. *)
Theorem folder_games_fill_the_grid (w : World)
    (open_text : str -> str -> outcome unit)
    (close_text : str -> outcome unit) (games_load : str -> games_read)
    (abspath : str -> str) (isdir_fd : Z -> outcome bool)
    (listdir_fd : Z -> outcome (list str)) (pixmap_is_null : str -> bool)
    (c : json) (games : list Game) (id : widget) (cfg0 : Config)
    (fetcher : ImageFetcher) :
  w_exists w data_file = false ->
  resultE (scan_roms w open_text close_text games_load abspath
             isdir_fd listdir_fd c) = Ret games ->
  Forall (from_folder w abspath (roms_dir_of c)) games
  /\ exists win' evs,
       _populate_grid w pixmap_is_null (fresh_window id cfg0 fetcher games)
         = (Ret (tt, win'), evs)
       /\ map card_game (win_cards win') = games.
Proof.
  intros Hdata Hscan.
  assert (Forall (from_folder w abspath (roms_dir_of c)) games) as Hfolder.
  { destruct (scan_roms_without_data_file w open_text close_text games_load
                abspath isdir_fd listdir_fd c games Hdata Hscan)
      as [-> | (_ & consoles & _ & Hfound)]; [constructor|].
    eapply scan_consoles_from_folder. exact Hfound. }
  split; [exact Hfolder|].
  assert (Forall has_key_and_name games) as Hnamed.
  { eapply Forall_impl; [exact Hfolder|].
    intros g. apply from_folder_has_key_and_name. }
  unfold _populate_grid.
  destruct (populate_from_places w pixmap_is_null games 0 0
              (with_grid (fresh_window id cfg0 fetcher games) [])
              ltac:(lia) Hnamed ltac:(constructor))
    as (win' & evs & Hrun & Hcards & _).
  exists win', evs. split; [exact Hrun | exact Hcards].
Qed.

Lemma folder_games_fill_the_grid_witness :
  Forall (from_folder roms_world sample_abspath (lit "roms"))
    [folder_game sample_abspath (lit "NES") (lit "roms/NES") (lit "zelda.GB");
     folder_game sample_abspath (lit "NES") (lit "roms/NES") (lit "zelda.nes")].
Proof.
  apply (folder_games_fill_the_grid roms_world
           (fun _ _ => Raise no_such_file) (fun _ => Ret tt)
           (fun _ => GamesDecodeError []) sample_abspath
           (fun _ => Ret false) (fun _ => Raise bad_descriptor)
           (fun _ => false) DEFAULT _ 1%N default_config sample_fetcher);
    reflexivity.
Defined.

(** ** File names and keys *)

Lemma rfind_from_absent (c : N) (s : str) (i best : Z) :
  ~ In c s -> rfind_from c s i best = best.
Proof.
  revert i best. induction s as [|x s IH]; intros i best Hnot; [reflexivity|].
  cbn [rfind_from]. destruct (N.eqb_spec x c) as [->|_].
  - exfalso. apply Hnot. left. reflexivity.
  - apply IH. intros Hin. apply Hnot. right. exact Hin.
Qed.

Lemma rfind_from_last (c : N) (stem rest : str) (i best : Z) :
  ~ In c rest ->
  rfind_from c (stem ++ c :: rest) i best = (i + Z.of_nat (length stem))%Z.
Proof.
  intros Hnot. revert i best.
  induction stem as [|x stem IH]; intros i best.
  - cbn [app rfind_from length]. rewrite N.eqb_refl.
    rewrite rfind_from_absent by exact Hnot. cbn. lia.
  - cbn [app rfind_from length]. rewrite IH. lia.
Qed.

(** [splitext] takes off what follows the last dot. *)
Lemma splitext_stem (stem ext : str) :
  ~ In 47%N stem -> ~ In 47%N ext -> ~ In 46%N ext ->
  forallb (N.eqb 46) stem = false ->
  splitext (stem ++ 46%N :: ext) = (stem, 46%N :: ext).
Proof.
  intros Hsep Hsep' Hdot Hstem. unfold splitext, rfind.
  rewrite (rfind_from_absent 47).
  2: { intros Hin. apply in_app_or in Hin as [Hin | [Heq | Hin]];
         [auto | discriminate | auto]. }
  rewrite (rfind_from_last 46) by exact Hdot.
  rewrite Z.add_0_l.
  destruct (Z.gtb_spec (Z.of_nat (length stem)) (-1)); [|lia].
  replace (Z.to_nat (-1 + 1)) with 0%nat by reflexivity.
  replace (Z.of_nat (length stem) - (-1 + 1))%Z with (Z.of_nat (length stem))
    by lia.
  rewrite !Nat2Z.id. change (skipn 0 ?l) with l.
  rewrite !take_app_length, drop_app_length, Hstem. reflexivity.
Qed.

Lemma startswith_prefix (p s : str) : startswith p (p ++ s) = true.
Proof. induction p as [|c p IH]; [apply startswith_nil|]. cbn. rewrite N.eqb_refl. exact IH. Qed.

Lemma endswith_suffix (s ext : str) : endswith ext (s ++ ext) = true.
Proof. unfold endswith. rewrite rev_app_distr. apply startswith_prefix. Qed.

Lemma lower_supported_ext (w : World) (stem ext : str) :
  forallb is_ascii stem = true -> In ext SUPPORTED_EXTS ->
  is_supported w (stem ++ ext) = true.
Proof.
  intros Hascii Hext. unfold is_supported, lower.
  assert (forallb is_ascii ext = true /\ map ascii_lower ext = ext) as [Ha Hl].
  { cbn in Hext. destruct Hext as [<-|[<-|[<-|[<-|[<-|[<-|[]]]]]]];
      split; reflexivity. }
  rewrite forallb_app, Hascii, Ha, map_app, Hl.
  unfold endswith_any. apply existsb_exists. exists ext.
  split; [exact Hext | apply endswith_suffix].
Qed.

(** X27. in a console folder, ROM files that differ only in a supported
    extension get the same name and the same key: for an ASCII stem that
    is not made of dots alone and holds no '/', the files stem+ext1 and
    stem+ext2 both become games named stem with key "console::stem". *)
Theorem same_stem_same_key (w : World) (abspath : str -> str)
    (console cpath stem ext1 ext2 : str) :
  forallb is_ascii stem = true ->
  ~ In 47%N stem ->
  forallb (N.eqb 46) stem = false ->
  In ext1 SUPPORTED_EXTS -> In ext2 SUPPORTED_EXTS ->
  exists g1 g2,
    resultE (scan_files w abspath console cpath [stem ++ ext1; stem ++ ext2])
      = Ret [g1; g2]
    /\ g_file g1 = Some (stem ++ ext1) /\ g_file g2 = Some (stem ++ ext2)
    /\ g_name g1 = Some stem /\ g_name g2 = Some stem
    /\ g_key g1 = Some (console ++ lit "::" ++ stem)
    /\ g_key g2 = Some (console ++ lit "::" ++ stem).
Proof.
  intros Hascii Hsep Hdots Hext1 Hext2.
  assert (forall ext, In ext SUPPORTED_EXTS ->
            fst (splitext (stem ++ ext)) = stem) as Hsplit.
  { intros ext Hext. cbn in Hext.
    destruct Hext as [<-|[<-|[<-|[<-|[<-|[<-|[]]]]]]];
      match goal with |- context [lit ?s] =>
        change (lit s) with (46%N :: tl (lit s)) end;
      (rewrite splitext_stem;
       [reflexivity | exact Hsep | vm_compute; intuition discriminate
       | vm_compute; intuition discriminate | exact Hdots]). }
  rewrite scan_files_result. cbn [List.filter].
  rewrite !lower_supported_ext by assumption. cbn [map].
  do 2 eexists. split; [reflexivity|].
  unfold folder_game. cbn [g_file g_name g_key].
  rewrite !Hsplit by assumption. auto 10.
Qed.

Lemma same_stem_same_key_witness :
  exists g1 g2,
    resultE (scan_files roms_world sample_abspath (lit "GB") (lit "roms/GB")
               [lit "zelda" ++ lit ".gb"; lit "zelda" ++ lit ".gbc"])
      = Ret [g1; g2]
    /\ g_file g1 = Some (lit "zelda" ++ lit ".gb")
    /\ g_file g2 = Some (lit "zelda" ++ lit ".gbc")
    /\ g_name g1 = Some (lit "zelda") /\ g_name g2 = Some (lit "zelda")
    /\ g_key g1 = Some (lit "GB" ++ lit "::" ++ lit "zelda")
    /\ g_key g2 = Some (lit "GB" ++ lit "::" ++ lit "zelda").
Proof.
  apply same_stem_same_key; try reflexivity.
  - vm_compute. intuition discriminate.
  - unfold SUPPORTED_EXTS. cbn [In]. auto 10.
  - unfold SUPPORTED_EXTS. cbn [In]. auto 10.
Defined.

(** ** data/games.json *)

Section GamesJson.
Variable w : World.
Variable open_text : str -> str -> outcome unit.
Variable close_text : str -> outcome unit.
Variable games_load : str -> games_read.
Variable abspath : str -> str.

End GamesJson.

(** A "roms_dir" that is a number is taken for a file descriptor: with a
    descriptor that is no directory, [scan_roms] prints that there is no
    ROMs directory and returns no games, without the final count. *)
Lemma scan_roms_numeric_roms_dir :
  scan_roms roms_world (fun _ _ => Raise no_such_file) (fun _ => Ret tt)
    (fun _ => GamesDecodeError []) sample_abspath
    (fun _ => Ret false) (fun _ => Raise bad_descriptor)
    (JDict [(lit "roms_dir", JNum 5)])
  = (Ret [],
     [Core (EvPathExists data_file); FdIsDir 5;
      Core (EvPrint (lit "No ROMs directory found:") [JNum 5])]).
Proof. reflexivity. Qed.





(** ** Covers that are already cached *)

Section CachedCovers.
Variable w : World.
Variable pixmap_is_null : str -> bool.

Lemma populate_from_shows_cached (games : list Game) (r c : Z)
    (win : Window) :
  Forall has_key_and_name games ->
  NoDup (map g_key games) ->
  (forall g k, In g games -> g_key g = Some k ->
     Forall (other_key k) (win_cards win)) ->
  exists win' evs,
    populate_from w pixmap_is_null games r c win = (Ret (tt, win'), evs)
    /\ win_cards win' =
         win_cards win ++
         map (card_after_populate w pixmap_is_null (win_fetcher win)) games.
Proof.
  intros Hnamed. revert r c win.
  induction Hnamed as [|g rest [[k Hk] [name Hname]] _ IH];
    intros r c win Hdup Hother.
  - exists win, []. cbn. rewrite app_nil_r. auto.
  - cbn [map] in Hdup. apply NoDup_cons in Hdup as [Hfresh Hdup].
    cbn [populate_from]. unfold bindU at 1. rewrite Hk, Hname.
    set (win1 := with_grid (with_cards win
                   (win_cards win ++ [{| card_game := g; card_cover := None |}]))
                   (win_grid win ++ [(length (win_cards win), r, c)])).
    assert (exists win2 evs2,
      (let* _ := logE (QAddWidget (length (win_cards win)) r c) in
       let* _ := core (fetch w (win_fetcher win1) k name (g_image_url g)) in
       deliver_signals w pixmap_is_null
         (events (fetch w (win_fetcher win1) k name (g_image_url g))) win1)
      = (Ret (tt, win2), evs2)
      /\ win_cards win2 =
           win_cards win ++
           [card_after_populate w pixmap_is_null (win_fetcher win) g]
      /\ win_fetcher win2 = win_fetcher win) as (win2 & evs2 & Hstep & Hcards2 & Hf2).
    { unfold fetch. rewrite bind_call_ret.
      change (win_fetcher win1) with (win_fetcher win).
      unfold card_after_populate. rewrite Hk. cbv zeta.
      destruct (w_exists w (_local_path_for w (win_fetcher win) k)) eqn:Hcached.
      - cbn [log result events fst snd deliver_signals].
        unfold bindU at 1. unfold on_image_ready.
        change (win_cards win1)
          with (win_cards win ++ [{| card_game := g; card_cover := None |}]).
        rewrite (image_ready_first_match w pixmap_is_null 0 (win_cards win) []
                   {| card_game := g; card_cover := None |} k _ win1
                   (Hother g k ltac:(left; reflexivity) Hk) Hk).
        rewrite set_cover_does, Hcached. cbn [Nat.add andb].
        change (win_cards win1)
          with (win_cards win ++ [{| card_game := g; card_cover := None |}]).
        rewrite alter_middle.
        destruct (negb (pixmap_is_null _)); do 2 eexists;
          (split; [reflexivity|]); split; reflexivity.
      - do 2 eexists. split; [reflexivity|]. split; reflexivity. }
    assert (forall g' k', In g' rest -> g_key g' = Some k' ->
              Forall (other_key k') (win_cards win2)) as Hother2.
    { intros g' k' Hin Hk'. rewrite Hcards2. apply Forall_app. split.
      - apply (Hother g' k'); [right; exact Hin | exact Hk'].
      - repeat constructor. exists k. split; [exact Hk|].
        intros Heq. apply Hfresh. rewrite Hk, Heq, <- Hk'.
        apply list_elem_of_In. apply in_map. exact Hin. }
    destruct (IH (if (c + 1 >=? 4)%Z then (r + 1)%Z else r)
                (if (c + 1 >=? 4)%Z then 0%Z else (c + 1)%Z) win2 Hdup Hother2)
      as (win3 & evs3 & Hrest & Hcards3).
    exists win3. eexists. split.
    { fold win1. unfold bindE at 1. rewrite Hstep. cbn [fst snd].
      destruct (c + 1 >=? 4)%Z; rewrite Hrest; reflexivity. }
    rewrite Hcards3, Hcards2, Hf2, <- app_assoc. reflexivity.
Qed.
End CachedCovers.

(** X30. when the games have pairwise different keys (and all have a
    name), a fresh window ends [_populate_grid] with one card per game, in
    order, and each card already shows its cover if the cache holds a file
    for its key that loads as an image; the other cards show the
    placeholder until their worker reports. *)
Theorem cached_covers_show_at_once (w : World)
    (pixmap_is_null : str -> bool) (win : Window) :
  Forall has_key_and_name (win_games win) ->
  NoDup (map g_key (win_games win)) ->
  win_cards win = [] ->
  exists win' evs,
    _populate_grid w pixmap_is_null win = (Ret (tt, win'), evs)
    /\ win_cards win' =
         map (card_after_populate w pixmap_is_null (win_fetcher win))
           (win_games win).
Proof.
  intros Hnamed Hdup Hfresh. unfold _populate_grid.
  destruct (populate_from_shows_cached w pixmap_is_null (win_games win) 0 0
              (with_grid win []) Hnamed Hdup) as (win' & evs & Hrun & Hcards).
  { intros g k _ _. cbn [with_grid win_cards]. rewrite Hfresh. constructor. }
  exists win', evs. split; [exact Hrun|].
  rewrite Hcards. cbn [with_grid win_cards win_fetcher]. rewrite Hfresh.
  reflexivity.
Qed.

Lemma cached_covers_show_at_once_witness :
  exists win' evs,
    _populate_grid full_world (fun _ => false)
      (fresh_window 1%N default_config sample_fetcher [zelda; metroid])
      = (Ret (tt, win'), evs)
    /\ win_cards win' =
         [covered (placeholder_card zelda)
            (lit "resources/covers/NES__Zelda.png");
          covered (placeholder_card metroid)
            (lit "resources/covers/NES__Metroid.png")].
Proof.
  apply (cached_covers_show_at_once full_world (fun _ => false)
           (fresh_window 1%N default_config sample_fetcher [zelda; metroid])).
  - repeat constructor; eexists; reflexivity.
  - apply (bool_decide_unpack _). vm_compute. exact I.
  - reflexivity.
Defined.
